(** * The training model of the splat optimiser: [model.hpp]

    A shallow embedding of [ManualGradScaler] (the loss-scaling controller)
    and of the constructor of [Model], with the properties the
    specification states about them.

    Numbers are modelled as the program has them: [float] is IEEE 754
    binary32 with round-to-nearest-even (the [SpecFloat] operations at
    precision 24, maximal exponent 128), [int] is a 32-bit two's complement
    integer carried in [Z]. *)

From Stdlib Require Import ZArith List Bool Lia.
From Stdlib Require Import Sorting.Permutation.
From Stdlib Require Import Floats.SpecFloat.
Import ListNotations.

Local Open Scope Z_scope.

(* ------------------------------------------------------------------ *)
(** ** Scalars *)

(** The C++ type [float]. *)
Module F32.
Definition prec : Z := 24.
Definition emax : Z := 128.

Definition mul : spec_float -> spec_float -> spec_float := SFmul prec emax.
Definition div : spec_float -> spec_float -> spec_float := SFdiv prec emax.

(** An integer literal such as [65536.0f]. *)
Definition of_Z (z : Z) : spec_float := binary_normalize prec emax z 0 false.

(** A decimal literal [n/d] with [n] and [d] exact in binary32, such as
    [0.1f] = 1/10: the correctly rounded quotient. *)
Definition of_ratio (n d : Z) : spec_float := div (of_Z n) (of_Z d).

Definition zero : spec_float := S754_zero false.
Definition one : spec_float := of_Z 1.
End F32.

(** The C++ type [double], which torch uses for [kFloat64] tensors and for
    [Scalar] arguments. *)
Module F64.
Definition prec : Z := 53.
Definition emax : Z := 1024.
Definition mul : spec_float -> spec_float -> spec_float := SFmul prec emax.
Definition div : spec_float -> spec_float -> spec_float := SFdiv prec emax.
Definition of_Z (z : Z) : spec_float := binary_normalize prec emax z 0 false.
End F64.

(** [std::min(a, b)] is [(b < a) ? b : a]: with a NaN on either side the
    comparison is false and [a] comes back. *)
Definition std_min (a b : spec_float) : spec_float :=
  if SFltb b a then b else a.

Definition isinf (x : spec_float) : bool :=
  match x with S754_infinity _ => true | _ => false end.

Definition isnan (x : spec_float) : bool :=
  match x with S754_nan => true | _ => false end.

(** The C++ type [int]. *)
Definition INT_MIN : Z := - 2 ^ 31.
Definition INT_MAX : Z := 2 ^ 31 - 1.
Definition in_int (z : Z) : Prop := INT_MIN <= z <= INT_MAX.

(** Two's complement wrap-around of a 32-bit result. *)
Definition wrap_int (z : Z) : Z := (z + 2 ^ 31) mod 2 ^ 32 - 2 ^ 31.

(** [a / b] on [int]: truncation towards zero. *)
Definition int_div (a b : Z) : Z := wrap_int (Z.quot a b).

(* ------------------------------------------------------------------ *)
(** ** Tensors

    What the header uses of [torch::Tensor]: a shape, an element type, a
    device, the elements in row-major order, the [requires_grad] flag and
    the gradient slot read by [grad()], which is undefined ([None]) until a
    backward pass fills it. *)

Inductive ScalarType := kUInt8 | kFloat16 | kFloat32 | kFloat64.

Inductive DeviceType := kCPU | kCUDA | kMPS | kHIP.

(** [torch::Device]: a device type and an index, -1 when none is given. *)
Record Device := mkDevice { dev_type : DeviceType; dev_index : Z }.

(** The implicit conversion of [torch::kCPU], [torch::kCUDA], ... to a
    [Device]. *)
Definition Device_of (t : DeviceType) : Device := mkDevice t (-1).

Definition DeviceType_eqb (a b : DeviceType) : bool :=
  match a, b with
  | kCPU, kCPU | kCUDA, kCUDA | kMPS, kMPS | kHIP, kHIP => true
  | _, _ => false
  end.

(** [Device::operator==] compares type and index. *)
Definition Device_eqb (a b : Device) : bool :=
  DeviceType_eqb (dev_type a) (dev_type b) && (dev_index a =? dev_index b).

Definition Device_neb (a b : Device) : bool := negb (Device_eqb a b).

Record Storage := mkStorage {
  sizes : list Z;
  dtype : ScalarType;
  device : Device;
  data : list spec_float
}.

Record Tensor := mkTensor {
  storage :> Storage;
  requires_grad : bool;
  grad : option Storage
}.

(** The result of an operator: a fresh tensor whose gradient slot is
    undefined. *)
Definition fresh (s : Storage) : Tensor := mkTensor s false None.

Definition is_floating (d : ScalarType) : bool :=
  match d with kUInt8 => false | _ => true end.

(** Rounding to the format of an element type. *)
Definition round_fmt (p e : Z) (x : spec_float) : spec_float :=
  match x with
  | S754_finite s m ex => binary_round p e s m ex
  | _ => x
  end.

Definition round_to (d : ScalarType) (x : spec_float) : spec_float :=
  match d with
  | kFloat16 => round_fmt 11 16 x
  | kFloat32 => round_fmt F32.prec F32.emax x
  | kFloat64 => round_fmt F64.prec F64.emax x
  | kUInt8 => x
  end.

(** [tensor * s] and [tensor.div_(s)] for a C++ [float] [s]. The result has
    the tensor's element type when that is a floating type, [kFloat32]
    otherwise; a [kFloat64] tensor is multiplied in double precision, the
    others in single precision, and a [kFloat16] result is rounded to half
    precision. *)
Definition result_type (d : ScalarType) : ScalarType :=
  if is_floating d then d else kFloat32.

Definition scalar_op (f32op f64op : spec_float -> spec_float -> spec_float)
           (d : ScalarType) (x s : spec_float) : spec_float :=
  match d with
  | kFloat64 => f64op x (round_to kFloat64 s)
  | kFloat16 => round_to kFloat16 (f32op x s)
  | _ => f32op x s
  end.

Definition mul_scalar (t : Tensor) (s : spec_float) : Tensor :=
  let d := result_type (dtype t) in
  mkTensor (mkStorage (sizes t) d (device t)
                      (map (fun x => scalar_op F32.mul F64.mul d x s) (data t)))
           (requires_grad t) None.

(** [isinf(g).any().item<bool>()] and [isnan(g).any().item<bool>()]. *)
Definition any_isinf (g : Storage) : bool := existsb isinf (data g).
Definition any_isnan (g : Storage) : bool := existsb isnan (data g).

(* ------------------------------------------------------------------ *)
(** ** [struct ManualGradScaler] *)

Record ManualGradScaler := mkScaler {
  scale : spec_float;
  growthFactor : spec_float;
  backoffFactor : spec_float;
  growthInterval : Z;
  unskippedSteps : Z;
  enabled : bool
}.

Definition f65536 : spec_float := F32.of_Z 65536.
Definition f2 : spec_float := F32.of_Z 2.
Definition f0_5 : spec_float := F32.of_ratio 1 2.

(** The constructor, and the constructor with its default arguments. *)
Definition ManualGradScaler_new (initScale growth backoff : spec_float)
           (interval : Z) : ManualGradScaler :=
  mkScaler initScale growth backoff interval 0 true.

Definition ManualGradScaler_default : ManualGradScaler :=
  ManualGradScaler_new f65536 f2 f0_5 2000.

Definition set_scale (s : ManualGradScaler) (x : spec_float) :=
  mkScaler x (growthFactor s) (backoffFactor s) (growthInterval s)
           (unskippedSteps s) (enabled s).

Definition set_unskippedSteps (s : ManualGradScaler) (n : Z) :=
  mkScaler (scale s) (growthFactor s) (backoffFactor s) (growthInterval s)
           n (enabled s).

Definition set_enabled (s : ManualGradScaler) (b : bool) :=
  mkScaler (scale s) (growthFactor s) (backoffFactor s) (growthInterval s)
           (unskippedSteps s) b.

Definition scaleGradients (s : ManualGradScaler) (loss : Tensor) : Tensor :=
  if negb (enabled s) then loss
  else mul_scalar loss (scale s).

(** The elements of a floating tensor divided by a C++ [float]. *)
Definition div_elements (g : Storage) (s : spec_float) : Storage :=
  mkStorage (sizes g) (dtype g) (device g)
            (map (fun x => scalar_op F32.div F64.div (dtype g) x s) (data g)).

(** [g.div_(s)], in place: a floating tensor has its elements divided; on
    an integer tensor the call raises ([None]), since the floating result
    cannot be written back, and the tensor stays as it was. *)
Definition div_scalar_ (g : Storage) (s : spec_float) : option Storage :=
  if is_floating (dtype g) then Some (div_elements g s) else None.

(** [unscaleGradients] works on the gradient in place: the caller passes
    the gradient slot and gets its new content, or [None] where the
    division raises. *)
Definition unscaleGradients (s : ManualGradScaler) (g : option Storage)
  : option (option Storage) :=
  match g with
  | Some g' =>
      if negb (enabled s) then Some g
      else match div_scalar_ g' (scale s) with
           | Some g'' => Some (Some g'')
           | None => None
           end
  | None => Some None
  end.

(** The loop of [step] over [params], leaving at the first gradient with
    an infinity or a NaN; the result is the final [foundInf]. *)
Fixpoint foundInf (params : list Tensor) : bool :=
  match params with
  | [] => false
  | p :: rest =>
      match grad p with
      | Some g => if any_isinf g || any_isnan g then true else foundInf rest
      | None => foundInf rest
      end
  end.

(** [step]: the returned flag and the controller after the call. *)
Definition step (s : ManualGradScaler) (params : list Tensor)
  : bool * ManualGradScaler :=
  if negb (enabled s) then (true, s)
  else if foundInf params then
    let s1 := set_scale s (F32.mul (scale s) (backoffFactor s)) in
    let s2 := set_unskippedSteps s1 0 in
    (false, s2)
  else
    let s1 := set_unskippedSteps s (wrap_int (unskippedSteps s + 1)) in
    if unskippedSteps s1 >=? growthInterval s1 then
      let s2 := set_scale s1 (F32.mul (scale s1) (growthFactor s1)) in
      let s3 := set_scale s2 (std_min (scale s2) f65536) in
      let s4 := set_unskippedSteps s3 0 in
      (true, s4)
    else (true, s1).

(** A sequence of [step] calls on one controller, one parameter list per
    call; the controller after the last call. *)
Fixpoint run (s : ManualGradScaler) (calls : list (list Tensor))
  : ManualGradScaler :=
  match calls with
  | [] => s
  | params :: rest => run (snd (step s params)) rest
  end.

(** The number of calls of a sequence that find an infinity or a NaN. *)
Definition overflows (calls : list (list Tensor)) : nat :=
  length (filter foundInf calls).

(* ------------------------------------------------------------------ *)
(** ** More of torch, as the constructor of [Model] uses it *)

Definition ScalarType_eqb (a b : ScalarType) : bool :=
  match a, b with
  | kUInt8, kUInt8 | kFloat16, kFloat16
  | kFloat32, kFloat32 | kFloat64, kFloat64 => true
  | _, _ => false
  end.

Definition numel (sz : list Z) : Z := fold_right Z.mul 1 sz.

(** [torch::zeros(sz, options)] and [torch::ones(sz)]; the latter is a
    [kFloat32] tensor on the CPU. *)
Definition full (sz : list Z) (d : ScalarType) (dev : Device)
           (x : spec_float) : Tensor :=
  fresh (mkStorage sz d dev (repeat x (Z.to_nat (numel sz)))).

Definition zeros (sz : list Z) (d : ScalarType) (dev : Device) : Tensor :=
  full sz d dev F32.zero.

Definition ones (sz : list Z) : Tensor :=
  full sz kFloat32 (Device_of kCPU) F32.one.

(** [t.to(device)]: the tensor itself when it is on that device already,
    a copy there otherwise. *)
Definition to_device (t : Tensor) (dev : Device) : Tensor :=
  if Device_eqb (device t) dev then t
  else mkTensor (mkStorage (sizes t) (dtype t) dev (data t))
                (requires_grad t) None.

(** [t.to(dtype)] and [t.toType(dtype)], for a floating [dtype]: the
    tensor itself when it has that element type already, a copy with every
    element rounded to it otherwise. *)
Definition toType (t : Tensor) (d : ScalarType) : Tensor :=
  if ScalarType_eqb (dtype t) d then t
  else mkTensor (mkStorage (sizes t) d (device t) (map (round_to d) (data t)))
                (requires_grad t) None.

Definition requires_grad_ (t : Tensor) : Tensor :=
  mkTensor (storage t) true (grad t).

(** An element-wise operator that keeps shape and element type. *)
Definition pointwise (f : spec_float -> spec_float) (t : Tensor) : Tensor :=
  mkTensor (mkStorage (sizes t) (dtype t) (device t) (map f (data t)))
           (requires_grad t) None.

(** [n] consecutive rows of [k] elements each. *)
Fixpoint chunks {A : Type} (k n : nat) (l : list A) : list (list A) :=
  match n with
  | O => []
  | S n' => firstn k l :: chunks k n' (skipn k l)
  end.

(** [t.repeat({1, 3})]: defined for at most two dimensions, a tensor of
    fewer being read as one row; every row is laid out three times. *)
Definition repeat_1_3 (t : Tensor) : option Tensor :=
  let triple (row : list spec_float) := row ++ row ++ row in
  let mk sz d := Some (mkTensor (mkStorage sz (dtype t) (device t) d)
                                (requires_grad t) None) in
  match sizes t with
  | [] => mk [1; 3] (triple (data t))
  | [c] => mk [1; 3 * c] (triple (data t))
  | [r; c] =>
      mk [r; 3 * c]
         (flat_map triple (chunks (Z.to_nat c) (Z.to_nat r) (data t)))
  | _ => None
  end.

(** Broadcasting a source of at most two dimensions to [N] rows of [C]
    columns, as [copy_] does: a dimension of the source has the length of
    the target or length 1. *)
Definition expand_rows (N C : Z) (src : Storage)
  : option (list (list spec_float)) :=
  let '(r, c) := match sizes src with
                 | [] => (1, 1)
                 | [c] => (1, c)
                 | [r; c] => (r, c)
                 | _ => (-1, -1)
                 end in
  let rows := chunks (Z.to_nat c) (Z.to_nat r) (data src) in
  let widen (row : list spec_float) :=
    if c =? C then row else flat_map (fun x => repeat x (Z.to_nat C)) row in
  if negb ((c =? C) || (c =? 1)) then None
  else if r =? N then Some (map widen rows)
  else if r =? 1 then Some (concat (repeat (map widen rows) (Z.to_nat N)))
  else None.

(** [shs.index({Slice(), 0, Slice(None, 3)}) = src] on a tensor [shs] of
    shape [{N, B, 3}] with [B >= 1]: the first three elements of every row
    of [3 * B] are overwritten with the row of [src] broadcast to
    [{N, 3}], converted to the element type of [shs]. *)
Definition assign_dc (N B : Z) (shs src : Tensor) : option Tensor :=
  match expand_rows N 3 src with
  | Some rows =>
      let old := chunks (Z.to_nat (B * 3)) (Z.to_nat N) (data shs) in
      let put (p : list spec_float * list spec_float) :=
        map (round_to (dtype shs)) (fst p) ++ skipn 3 (snd p) in
      Some (mkTensor (mkStorage (sizes shs) (dtype shs) (device shs)
                                (flat_map put (combine rows old)))
                     (requires_grad shs) (grad shs))
  | None => None
  end.

(** [shs.index({Slice(), Slice(1, None), Slice(k, None)}) = v] on that
    shape: in every basis after the first, the elements from column [k] on
    become [v]. A basis has three columns, so with [k = 3] there are none
    to write. *)
Definition fill_rest_from (N B : Z) (k : nat) (shs : Tensor)
           (v : spec_float) : Tensor :=
  let basis (b : list spec_float) :=
    firstn k b ++ map (fun _ => round_to (dtype shs) v) (skipn k b) in
  let point (row : list spec_float) :=
    firstn 3 row
    ++ flat_map basis (chunks 3 (Z.to_nat (B - 1)) (skipn 3 row)) in
  mkTensor (mkStorage (sizes shs) (dtype shs) (device shs)
              (flat_map point
                 (chunks (Z.to_nat (B * 3)) (Z.to_nat N) (data shs))))
           (requires_grad shs) (grad shs).

(** [shs.index({Slice(), 0, Slice()})] and
    [shs.index({Slice(), Slice(1, None), Slice()})] on that shape. *)
Definition select_dc (N B : Z) (shs : Tensor) : Tensor :=
  fresh (mkStorage [N; 3] (dtype shs) (device shs)
           (flat_map (firstn 3)
                     (chunks (Z.to_nat (B * 3)) (Z.to_nat N) (data shs)))).

Definition slice_rest (N B : Z) (shs : Tensor) : Tensor :=
  fresh (mkStorage [N; B - 1; 3] (dtype shs) (device shs)
           (flat_map (skipn 3)
                     (chunks (Z.to_nat (B * 3)) (Z.to_nat N) (data shs)))).

(** [t.size(0)], which raises on a tensor without dimensions. *)
Definition size0 (t : Tensor) : option Z :=
  match sizes t with
  | n :: _ => Some n
  | [] => None
  end.

(** [torch::tensor({a, b, c}, device)]. *)
Definition tensor3 (a b c : spec_float) (dev : Device) : Tensor :=
  fresh (mkStorage [3] kFloat32 dev [a; b; c]).

(* ------------------------------------------------------------------ *)
(** ** [struct Model] *)

Module Points.
Record t := mk { xyz : Tensor; rgb : Tensor }.
End Points.

Module InputData.
Record t := mk {
  points : Points.t;
  scale : spec_float;
  translation : Tensor
}.
End InputData.

(** The arguments of the constructor besides [inputData]. *)
Module Args.
Record t := mk {
  numCameras : Z;
  numDownscales : Z;
  resolutionSchedule : Z;
  shDegree : Z;
  shDegreeInterval : Z;
  refineEvery : Z;
  warmupLength : Z;
  resetAlphaEvery : Z;
  densifyGradThresh : spec_float;
  densifySizeThresh : spec_float;
  stopScreenSizeAt : Z;
  splitScreenSize : spec_float;
  maxSteps : Z;
  keepCrs : bool;
  mixedPrecision : bool;
  fp16Level : Z;
  ampWarmup : Z;
  device : Device
}.
End Args.

(** The members the constructor initialises. [Opt] is the state that
    [setupOptimizers] builds (the six optimisers and the scheduler), absent
    until then as the null pointers of the declaration say. The tensors and
    integers "set in forward()" and "set in afterTrain()" are not touched
    by the constructor and are left out. *)
Module Model.
Record t {Opt : Type} := mk {
  means : Tensor;
  scales : Tensor;
  quats : Tensor;
  featuresDc : Tensor;
  featuresRest : Tensor;
  opacities : Tensor;
  optimizers : option Opt;
  backgroundColor : Tensor;
  device : Device;
  ssim : Z * Z;
  numCameras : Z;
  numDownscales : Z;
  resolutionSchedule : Z;
  shDegree : Z;
  shDegreeInterval : Z;
  refineEvery : Z;
  warmupLength : Z;
  resetAlphaEvery : Z;
  stopSplitAt : Z;
  densifyGradThresh : spec_float;
  densifySizeThresh : spec_float;
  stopScreenSizeAt : Z;
  splitScreenSize : spec_float;
  maxSteps : Z;
  keepCrs : bool;
  mixedPrecision : bool;
  fp16Level : Z;
  ampWarmup : Z;
  gradScaler : ManualGradScaler;
  scale : spec_float;
  translation : Tensor
}.
Arguments t : clear implicits.
Arguments mk {Opt}.
End Model.

(** What the constructor calls and this header only declares or includes.
    Random draws read and advance the state of torch's default generator,
    which [torch::manual_seed] sets from the seed alone. *)
Class Collaborators := {
  Generator : Type;
  manual_seed : Z -> Generator;
  (** [randomQuatTensor(n)] *)
  randomQuatTensor : Z -> Generator -> Tensor * Generator;
  (** [PointsTensor(xyz).scales()] of kdtree_tensor.hpp *)
  PointsTensor_scales : Tensor -> Generator -> Tensor * Generator;
  (** [numShBases] and [rgb2sh] of spherical_harmonics.hpp *)
  numShBases : Z -> Z;
  rgb2sh : Tensor -> Tensor;
  (** the element kernels of [log()] and [torch::logit] per element type *)
  log_kernel : ScalarType -> spec_float -> spec_float;
  logit_kernel : ScalarType -> spec_float -> spec_float;
  Optimizers : Type;
  (** Modelled from the spec: [setupOptimizers], declared in the header and
      defined elsewhere. Section 4.3 has it create the six per-attribute
      optimisers (and section 4.4 the scheduler of the position optimiser)
      from the model built so far; it assigns nothing else. *)
  setupOptimizers : Model.t Optimizers -> Optimizers
}.

Definition f0_1 : spec_float := F32.of_ratio 1 10.

(** Sequencing of calls that can raise. *)
Notation "'let?' x ':=' e 'in' k" :=
  (match e with Some x => k | None => None end)
    (at level 10, x name, e at level 100, k at level 200, only parsing).

Section ModelConstruction.
Context {C : Collaborators}.

Definition ModelT : Type := Model.t Optimizers.

Definition set_featuresRest (m : ModelT) (x : Tensor) : ModelT :=
  Model.mk (Model.means m) (Model.scales m) (Model.quats m)
    (Model.featuresDc m) x (Model.opacities m) (Model.optimizers m)
    (Model.backgroundColor m) (Model.device m) (Model.ssim m)
    (Model.numCameras m) (Model.numDownscales m)
    (Model.resolutionSchedule m) (Model.shDegree m)
    (Model.shDegreeInterval m) (Model.refineEvery m) (Model.warmupLength m)
    (Model.resetAlphaEvery m) (Model.stopSplitAt m)
    (Model.densifyGradThresh m) (Model.densifySizeThresh m)
    (Model.stopScreenSizeAt m) (Model.splitScreenSize m) (Model.maxSteps m)
    (Model.keepCrs m) (Model.mixedPrecision m) (Model.fp16Level m)
    (Model.ampWarmup m) (Model.gradScaler m) (Model.scale m)
    (Model.translation m).

Definition set_gradScaler (m : ModelT) (x : ManualGradScaler) : ModelT :=
  Model.mk (Model.means m) (Model.scales m) (Model.quats m)
    (Model.featuresDc m) (Model.featuresRest m) (Model.opacities m)
    (Model.optimizers m)
    (Model.backgroundColor m) (Model.device m) (Model.ssim m)
    (Model.numCameras m) (Model.numDownscales m)
    (Model.resolutionSchedule m) (Model.shDegree m)
    (Model.shDegreeInterval m) (Model.refineEvery m) (Model.warmupLength m)
    (Model.resetAlphaEvery m) (Model.stopSplitAt m)
    (Model.densifyGradThresh m) (Model.densifySizeThresh m)
    (Model.stopScreenSizeAt m) (Model.splitScreenSize m) (Model.maxSteps m)
    (Model.keepCrs m) (Model.mixedPrecision m) (Model.fp16Level m)
    (Model.ampWarmup m) x (Model.scale m)
    (Model.translation m).

Definition set_optimizers (m : ModelT) (x : option Optimizers) : ModelT :=
  Model.mk (Model.means m) (Model.scales m) (Model.quats m)
    (Model.featuresDc m) (Model.featuresRest m) (Model.opacities m) x
    (Model.backgroundColor m) (Model.device m) (Model.ssim m)
    (Model.numCameras m) (Model.numDownscales m)
    (Model.resolutionSchedule m) (Model.shDegree m)
    (Model.shDegreeInterval m) (Model.refineEvery m) (Model.warmupLength m)
    (Model.resetAlphaEvery m) (Model.stopSplitAt m)
    (Model.densifyGradThresh m) (Model.densifySizeThresh m)
    (Model.stopScreenSizeAt m) (Model.splitScreenSize m) (Model.maxSteps m)
    (Model.keepCrs m) (Model.mixedPrecision m) (Model.fp16Level m)
    (Model.ampWarmup m) (Model.gradScaler m) (Model.scale m)
    (Model.translation m).

(** [Model::Model]. The generator state [g0] is the one of the process
    when the constructor is entered; the result is the model and the
    generator state left behind, or [None] where a torch call raises. The
    line written to [std::cout] in the half-precision branch is not part
    of the result. *)
Definition Model_new (inputData : InputData.t) (a : Args.t) (g0 : Generator)
  : option (ModelT * Generator) :=
  let device := Args.device a in
  let xyz := Points.xyz (InputData.points inputData) in
  let? numPoints := size0 xyz in
  let g1 := manual_seed 42 in
  let means := requires_grad_ (to_device xyz device) in
  let '(knn, g2) := PointsTensor_scales xyz g1 in
  let? rep := repeat_1_3 knn in
  let scales :=
    requires_grad_
      (to_device (pointwise (log_kernel (dtype rep)) rep) device) in
  let '(q, g3) := randomQuatTensor numPoints g2 in
  let quats := requires_grad_ (to_device q device) in
  let dimSh := numShBases (Args.shDegree a) in
  if dimSh <? 1 then None else
  let shs := zeros [numPoints; dimSh; 3] kFloat32 device in
  let rgb01 :=
    pointwise (fun x => F64.div x (F64.of_Z 255))
              (toType (Points.rgb (InputData.points inputData)) kFloat64) in
  let? shs :=
    assign_dc numPoints dimSh shs (toType (rgb2sh rgb01) kFloat32) in
  let shs := fill_rest_from numPoints dimSh 3 shs F32.zero in
  let featuresDc :=
    requires_grad_ (to_device (select_dc numPoints dimSh shs) device) in
  let featuresRest :=
    requires_grad_ (to_device (slice_rest numPoints dimSh shs) device) in
  let opacities :=
    requires_grad_
      (to_device
         (pointwise (logit_kernel kFloat32)
                    (mul_scalar (ones [numPoints; 1]) f0_1))
         device) in
  let m : ModelT :=
    Model.mk means scales quats featuresDc featuresRest opacities None
      (requires_grad_
         (tensor3 (F32.of_ratio 6130 10000) (F32.of_ratio 101 10000)
                  (F32.of_ratio 3984 10000) device))
      device (11, 3)
      (Args.numCameras a) (Args.numDownscales a)
      (Args.resolutionSchedule a) (Args.shDegree a)
      (Args.shDegreeInterval a) (Args.refineEvery a) (Args.warmupLength a)
      (Args.resetAlphaEvery a) (int_div (Args.maxSteps a) 2)
      (Args.densifyGradThresh a) (Args.densifySizeThresh a)
      (Args.stopScreenSizeAt a) (Args.splitScreenSize a) (Args.maxSteps a)
      (Args.keepCrs a) (Args.mixedPrecision a) (Args.fp16Level a)
      (Args.ampWarmup a) ManualGradScaler_default
      (InputData.scale inputData) (InputData.translation inputData) in
  let m :=
    if Args.mixedPrecision a && (Args.fp16Level a >=? 2)
       && Device_neb device (Device_of kCPU)
    then set_featuresRest m
           (requires_grad_ (toType (Model.featuresRest m) kFloat16))
    else m in
  let m := set_gradScaler m
             (set_enabled (Model.gradScaler m)
                (Args.mixedPrecision a
                 && Device_neb device (Device_of kCPU))) in
  Some (set_optimizers m (Some (setupOptimizers m)), g3).

End ModelConstruction.

(* ------------------------------------------------------------------ *)
(** ** Vocabulary of the properties, and sample inputs *)

Definition nonfinite (x : spec_float) : Prop :=
  isinf x = true \/ isnan x = true.

(** The parameter has a defined gradient with an infinity or a NaN in it. *)
Definition has_nonfinite_grad (p : Tensor) : Prop :=
  exists g, grad p = Some g /\ Exists nonfinite (data g).

(** Every defined gradient of the list holds finite values only. *)
Definition all_grads_finite (params : list Tensor) : Prop :=
  Forall (fun p =>
            forall g, grad p = Some g ->
                      Forall (fun x => isinf x = false /\ isnan x = false)
                             (data g))
         params.

(** The levels the scale of the default controller moves through: 65536
    halved again and again in binary32, 2^16 down to 2^-149 and then +0. *)
Fixpoint halvings (n : nat) (x : spec_float) : list spec_float :=
  match n with
  | O => []
  | S n' => x :: halvings n' (F32.mul x f0_5)
  end.

Definition scale_levels : list spec_float :=
  Eval vm_compute in halvings 167 f65536.

Definition level (k : nat) : spec_float := nth k scale_levels F32.zero.

(** Structural equality of floats (it tells +0 from -0, unlike [SFeqb]). *)
Definition SF_same (x y : spec_float) : bool :=
  match x, y with
  | S754_zero a, S754_zero b => Bool.eqb a b
  | S754_infinity a, S754_infinity b => Bool.eqb a b
  | S754_nan, S754_nan => true
  | S754_finite a m e, S754_finite b m' e' =>
      Bool.eqb a b && Pos.eqb m m' && Z.eqb e e'
  | _, _ => false
  end.

(** The level after a backoff and after a growth. *)
Definition level_down (k : nat) : nat := Nat.min (S k) 166.
Definition level_up (k : nat) : nat :=
  if Nat.eqb k 166 then 166%nat else Nat.pred k.

(** The default controller with its scale at level [k] and [u] steps
    counted since the last change of scale. *)
Definition at_level (k : nat) (u : Z) : ManualGradScaler :=
  mkScaler (level k) f2 f0_5 2000 u true.

(** A parameter whose gradient is the single value NaN, and one whose
    gradient is the single value 1. *)
Definition nan_param : Tensor :=
  mkTensor (mkStorage [1] kFloat32 (Device_of kCPU) [F32.zero]) true
           (Some (mkStorage [1] kFloat32 (Device_of kCPU) [S754_nan])).

Definition finite_param : Tensor :=
  mkTensor (mkStorage [1] kFloat32 (Device_of kCPU) [F32.zero]) true
           (Some (mkStorage [1] kFloat32 (Device_of kCPU) [F32.one])).

(** A scalar loss of 1. *)
Definition sample_loss : Tensor :=
  mkTensor (mkStorage [] kFloat32 (Device_of kCPU) [F32.one]) true None.

(** An instance of the collaborators to run the constructor on: seeds are
    generator states, a draw advances the state by one, scales are one
    column of ones, colours pass through and there are (d + 1)^2 bases. *)
Definition sample_collaborators : Collaborators := {|
  Generator := Z;
  manual_seed := fun seed => seed;
  randomQuatTensor := fun n g =>
    (full [n; 4] kFloat32 (Device_of kCPU) (F32.of_Z g), g + 1);
  PointsTensor_scales := fun xyz g =>
    (full [hd 0 (sizes xyz); 1] kFloat32 (Device_of kCPU) F32.one, g);
  numShBases := fun d => (d + 1) * (d + 1);
  rgb2sh := fun t => t;
  log_kernel := fun _ x => x;
  logit_kernel := fun _ x => x;
  Optimizers := unit;
  setupOptimizers := fun _ => tt
|}.

(** Two points with their colours. *)
Definition sample_input : InputData.t :=
  InputData.mk
    (Points.mk
       (fresh (mkStorage [2; 3] kFloat32 (Device_of kCPU)
                 (map F32.of_Z [0; 0; 0; 1; 2; 3])))
       (fresh (mkStorage [2; 3] kUInt8 (Device_of kCPU)
                 (map F32.of_Z [255; 0; 0; 10; 20; 30]))))
    F32.one
    (fresh (mkStorage [3] kFloat32 (Device_of kCPU)
              (map F32.of_Z [0; 0; 0]))).

Definition cuda : Device := Device_of kCUDA.
Definition cpu : Device := Device_of kCPU.

(** Arguments with mixed precision at level 2 and a warm-up of 1000 steps,
    for a given device. *)
Definition sample_args (dev : Device) : Args.t :=
  Args.mk 1 2 3000 3 1000 100 500 30
          (F32.of_ratio 2 10000) (F32.of_ratio 1 100) 4000
          (F32.of_ratio 5 100) 30000 false true 2 1000 dev.

(** The constructor on the sample input, from generator state 0. *)
Definition sample_run (dev : Device)
  : option (Model.t unit * Z) :=
  Model_new (C := sample_collaborators) sample_input (sample_args dev) 0.

(** [p.grad().defined()]. *)
Definition has_grad (p : Tensor) : bool :=
  match grad p with
  | Some _ => true
  | None => false
  end.

(** A call that finds no infinity and no NaN, and a sequence of such. *)
Definition clean (calls : list (list Tensor)) : Prop :=
  Forall (fun params => foundInf params = false) calls.

(** [x] halved [n] times in binary32. *)
Definition halved (n : nat) (x : spec_float) : spec_float :=
  Nat.iter n (fun y => F32.mul y f0_5) x.

(** The binary32 number 2^(q + 23), a power of two with a full mantissa;
    65536 is [pow2 (-7)]. *)
Definition pow2 (q : Z) : spec_float := S754_finite false 8388608 q.

(** [x] is a zero, an infinity, a NaN, or a normal binary32 number whose
    product with [pow2 q] is a normal number again (no overflow, no
    underflow). *)
Definition scales_exactly (q : Z) (x : spec_float) : Prop :=
  match x with
  | S754_finite _ m e =>
      digits2_pos m = 24%positive
      /\ -149 <= e <= 104
      /\ -149 <= e + q + 23 <= 104
  | _ => True
  end.

(** A gradient of three elements. *)
Definition sample_grad : Storage :=
  mkStorage [3] kFloat32 (Device_of kCPU)
            [F32.of_ratio 1 10; S754_zero true; F32.of_Z (-3)].

(** A tensor whose element list is as long as its shape says. *)
Definition well_formed (t : Storage) : Prop :=
  length (data t) = Z.to_nat (numel (sizes t)).

Section ModelInputs.
Context {C : Collaborators}.
Variable inputData : InputData.t.

(** The colours as [copy_] receives them in the constructor. *)
Definition colour_source : Tensor :=
  toType
    (rgb2sh
       (pointwise (fun x => F64.div x (F64.of_Z 255))
                  (toType (Points.rgb (InputData.points inputData))
                          kFloat64)))
    kFloat32.

(** The neighbour scales as the constructor receives them. *)
Definition neighbour_scales : Tensor :=
  fst (PointsTensor_scales (Points.xyz (InputData.points inputData))
                           (manual_seed 42)).

End ModelInputs.

(** A row of [shs] for [B] bases after the colours went in: the three
    coefficients of the first basis in single precision, then zeros for
    the bases after it. *)
Definition shs_row (B : Z) (row : list spec_float) : list spec_float :=
  map (round_to kFloat32) row ++ repeat F32.zero (Z.to_nat (B - 1) * 3).

(* ------------------------------------------------------------------ *)
(** ** The scan of [step], against its description *)

Lemma any_nonfinite_iff (g : Storage) :
  any_isinf g || any_isnan g = true <-> Exists nonfinite (data g).
Proof.
  unfold any_isinf, any_isnan, nonfinite.
  rewrite orb_true_iff, !existsb_exists, Exists_exists.
  split.
  - intros [[x [Hin Hx]] | [x [Hin Hx]]]; exists x; tauto.
  - intros [x [Hin [Hx | Hx]]]; [left | right]; exists x; tauto.
Qed.

Lemma foundInf_true_iff (params : list Tensor) :
  foundInf params = true <-> Exists has_nonfinite_grad params.
Proof.
  induction params as [| p rest IH]; simpl.
  - split; [discriminate | intros H; inversion H].
  - rewrite Exists_cons. unfold has_nonfinite_grad at 1.
    destruct (grad p) as [g |] eqn:Hg.
    + destruct (any_isinf g || any_isnan g) eqn:Hany.
      * split; [intros _ | reflexivity].
        left. exists g. split; [reflexivity | now apply any_nonfinite_iff].
      * rewrite IH. split; [tauto |].
        intros [[g' [Heq Hex]] | Hrest]; [| exact Hrest].
        injection Heq as <-. apply any_nonfinite_iff in Hex. congruence.
    + rewrite IH. split; [tauto |].
      intros [[g' [Heq _]] | Hrest]; [discriminate | exact Hrest].
Qed.

Lemma foundInf_false_of_finite (params : list Tensor) :
  all_grads_finite params -> foundInf params = false.
Proof.
  intros Hfin. destruct (foundInf params) eqn:Hf; [| reflexivity].
  apply foundInf_true_iff in Hf. apply Exists_exists in Hf.
  destruct Hf as [p [Hin [g [Hg Hex]]]].
  unfold all_grads_finite in Hfin. rewrite Forall_forall in Hfin.
  specialize (Hfin p Hin g Hg). rewrite Forall_forall in Hfin.
  apply Exists_exists in Hex. destruct Hex as [x [Hx Hnf]].
  destruct (Hfin x Hx) as [Hi Hn]. destruct Hnf; congruence.
Qed.

Lemma wrap_int_id (z : Z) : in_int z -> wrap_int z = z.
Proof.
  unfold in_int, INT_MIN, INT_MAX, wrap_int. intros H.
  rewrite Z.mod_small; lia.
Qed.

(* ------------------------------------------------------------------ *)
(** ** [ManualGradScaler::step] and [scaleGradients] *)

(** C8: with scaling disabled, [step] returns true on every parameter
    list, whatever its gradients hold, and leaves the controller (its
    scale and its counter) as it was. *)
Theorem step_disabled_is_identity (s : ManualGradScaler)
        (params : list Tensor) :
  enabled s = false ->
  step s params = (true, s).
Proof.
  intros Hen. unfold step. now rewrite Hen.
Qed.

Lemma step_disabled_is_identity_witness :
  enabled (set_enabled ManualGradScaler_default false) = false
  /\ step (set_enabled ManualGradScaler_default false) [nan_param]
     = (true, set_enabled ManualGradScaler_default false).
Proof.
  split; [reflexivity |].
  apply step_disabled_is_identity. reflexivity.
Defined.

(** C1: with scaling enabled, a parameter list in which some defined
    gradient holds an infinity or a NaN makes [step] multiply the scale by
    the backoff factor, which is 0.5 in the controller as constructed,
    reset the counter to 0 and return false; the growth factor is not
    applied on that call. *)
Theorem step_backoff_on_overflow (s : ManualGradScaler)
        (params : list Tensor) :
  enabled s = true ->
  Exists has_nonfinite_grad params ->
  step s params
  = (false,
     mkScaler (F32.mul (scale s) (backoffFactor s)) (growthFactor s)
              (backoffFactor s) (growthInterval s) 0 true)
  /\ (backoffFactor s = f0_5 ->
      scale (snd (step s params)) = F32.mul (scale s) f0_5)
  /\ backoffFactor ManualGradScaler_default = f0_5.
Proof.
  intros Hen Hex. apply foundInf_true_iff in Hex.
  assert (Hstep : step s params
                  = (false,
                     mkScaler (F32.mul (scale s) (backoffFactor s))
                              (growthFactor s) (backoffFactor s)
                              (growthInterval s) 0 true)).
  { unfold step. rewrite Hen, Hex. simpl.
    unfold set_unskippedSteps, set_scale. simpl. now rewrite Hen. }
  split; [exact Hstep | split; [| reflexivity]].
  intros Hback. rewrite Hstep. simpl. now rewrite Hback.
Qed.

Lemma nan_param_overflows :
  Exists has_nonfinite_grad [finite_param; nan_param].
Proof.
  apply Exists_cons_tl, Exists_cons_hd.
  exists (mkStorage [1] kFloat32 (Device_of kCPU) [S754_nan]).
  split; [reflexivity |].
  apply Exists_cons_hd. right. reflexivity.
Defined.

Lemma step_backoff_on_overflow_witness :
  enabled ManualGradScaler_default = true
  /\ Exists has_nonfinite_grad [finite_param; nan_param]
  /\ step ManualGradScaler_default [finite_param; nan_param]
     = (false, at_level 1 0).
Proof.
  split; [reflexivity | split; [exact nan_param_overflows |]].
  exact (eq_trans
           (proj1 (step_backoff_on_overflow ManualGradScaler_default
                     [finite_param; nan_param] eq_refl nan_param_overflows))
           eq_refl).
Defined.

(** C2: with scaling enabled and every defined gradient finite, [step]
    increments the counter and returns true; when the counter has then
    reached [growthInterval], the scale becomes [scale * growthFactor]
    clamped to at most 65536 and the counter goes back to 0. The defaults
    are a growth interval of 2000 and a growth factor of 2. *)
Theorem step_growth_when_finite (s : ManualGradScaler)
        (params : list Tensor) :
  enabled s = true ->
  INT_MIN <= unskippedSteps s < INT_MAX ->
  all_grads_finite params ->
  step s params
  = (true,
     if unskippedSteps s + 1 >=? growthInterval s
     then
       let grown := F32.mul (scale s) (growthFactor s) in
       mkScaler (if SFltb f65536 grown then f65536 else grown)
                (growthFactor s) (backoffFactor s) (growthInterval s) 0 true
     else
       mkScaler (scale s) (growthFactor s) (backoffFactor s)
                (growthInterval s) (unskippedSteps s + 1) true)
  /\ growthInterval ManualGradScaler_default = 2000
  /\ growthFactor ManualGradScaler_default = f2.
Proof.
  intros Hen Hrange Hfin.
  split; [| split; reflexivity].
  apply foundInf_false_of_finite in Hfin.
  unfold step. rewrite Hen, Hfin. simpl.
  rewrite wrap_int_id by (unfold in_int; lia).
  destruct (unskippedSteps s + 1 >=? growthInterval s);
    unfold set_unskippedSteps, set_scale, std_min; simpl; now rewrite Hen.
Qed.

Lemma finite_param_is_finite : all_grads_finite [finite_param].
Proof.
  constructor; [| constructor].
  intros g Hg. injection Hg as <-. simpl.
  constructor; [split; reflexivity | constructor].
Defined.

Lemma step_growth_when_finite_witness :
  enabled (at_level 3 1999) = true
  /\ INT_MIN <= unskippedSteps (at_level 3 1999) < INT_MAX
  /\ all_grads_finite [finite_param]
  /\ step (at_level 3 1999) [finite_param] = (true, at_level 2 0).
Proof.
  assert (Hrange : INT_MIN <= unskippedSteps (at_level 3 1999) < INT_MAX)
    by (unfold INT_MIN, INT_MAX; simpl; lia).
  split; [reflexivity | split; [exact Hrange | split]].
  - exact finite_param_is_finite.
  - exact (eq_trans
             (proj1 (step_growth_when_finite (at_level 3 1999) [finite_param]
                       eq_refl Hrange finite_param_is_finite))
             eq_refl).
Defined.

(** C4: [scaleGradients] returns [loss * scale] when the controller is
    enabled (for a [kFloat32] loss: every element multiplied by the scale
    in single precision, shape kept) and the loss itself when it is
    disabled. *)
Theorem scaleGradients_spec (s : ManualGradScaler) (loss : Tensor) :
  scaleGradients s loss
  = (if enabled s then mul_scalar loss (scale s) else loss)
  /\ (enabled s = true -> dtype loss = kFloat32 ->
      data (scaleGradients s loss)
      = map (fun x => F32.mul x (scale s)) (data loss)
      /\ sizes (scaleGradients s loss) = sizes loss
      /\ dtype (scaleGradients s loss) = kFloat32).
Proof.
  unfold scaleGradients. split.
  - now destruct (enabled s).
  - intros -> Hd. unfold mul_scalar. simpl. rewrite Hd. simpl. auto.
Qed.

Lemma scaleGradients_spec_witness :
  enabled ManualGradScaler_default = true
  /\ dtype sample_loss = kFloat32
  /\ data (scaleGradients ManualGradScaler_default sample_loss) = [f65536].
Proof.
  split; [reflexivity | split; [reflexivity |]].
  exact (eq_trans
           (proj1 (proj2 (scaleGradients_spec ManualGradScaler_default
                            sample_loss)
                         eq_refl eq_refl))
           eq_refl).
Defined.

(* ------------------------------------------------------------------ *)
(** ** The range of the scale over a run *)

Lemma SF_same_eq (x y : spec_float) : SF_same x y = true -> x = y.
Proof.
  destruct x as [a | a | | a m e], y as [b | b | | b m' e'];
    simpl; try discriminate; try reflexivity.
  - intros H. apply eqb_prop in H. now subst.
  - intros H. apply eqb_prop in H. now subst.
  - rewrite !andb_true_iff. intros [[Hs Hm] He].
    apply eqb_prop in Hs. apply Pos.eqb_eq in Hm. apply Z.eqb_eq in He.
    now subst.
Qed.

(** A check that holds on every level index holds on each of them. *)
Lemma on_all_levels (P : nat -> bool) :
  forallb P (seq 0 167) = true ->
  forall k, (k <= 166)%nat -> P k = true.
Proof.
  intros Hall k Hk. rewrite forallb_forall in Hall.
  apply Hall. apply in_seq. lia.
Qed.

Lemma level_backoff (k : nat) :
  (k <= 166)%nat -> F32.mul (level k) f0_5 = level (level_down k).
Proof.
  intros Hk. apply SF_same_eq.
  revert k Hk.
  apply (on_all_levels
           (fun k => SF_same (F32.mul (level k) f0_5) (level (level_down k)))).
  vm_compute. reflexivity.
Qed.

Lemma level_growth (k : nat) :
  (k <= 166)%nat ->
  std_min (F32.mul (level k) f2) f65536 = level (level_up k).
Proof.
  intros Hk. apply SF_same_eq.
  revert k Hk.
  apply (on_all_levels
           (fun k => SF_same (std_min (F32.mul (level k) f2) f65536)
                             (level (level_up k)))).
  vm_compute. reflexivity.
Qed.

Lemma level_range (k : nat) :
  (k <= 166)%nat ->
  SFleb F32.zero (level k) = true /\ SFleb (level k) f65536 = true.
Proof.
  intros Hk. apply andb_true_iff.
  revert k Hk.
  apply (on_all_levels
           (fun k => SFleb F32.zero (level k) && SFleb (level k) f65536)).
  vm_compute. reflexivity.
Qed.

Lemma level_positive (k : nat) :
  (k < 166)%nat -> SFltb F32.zero (level k) = true.
Proof.
  intros Hk.
  assert (H : (Nat.eqb k 166 || SFltb F32.zero (level k)) = true).
  { revert k Hk. intros k Hk.
    apply (on_all_levels
             (fun k => Nat.eqb k 166 || SFltb F32.zero (level k)));
      [vm_compute; reflexivity | lia]. }
  apply orb_true_iff in H. destruct H as [H | H]; [| exact H].
  apply Nat.eqb_eq in H. lia.
Qed.

Lemma level_down_le (k : nat) :
  (level_down k <= 166 /\ level_down k <= S k)%nat.
Proof. unfold level_down. lia. Qed.

Lemma level_up_le (k : nat) :
  (k <= 166 -> level_up k <= 166 /\ level_up k <= k)%nat.
Proof.
  unfold level_up. destruct (Nat.eqb k 166) eqn:E.
  - apply Nat.eqb_eq in E. lia.
  - lia.
Qed.

(** One call on the controller at a level leaves it at a level, at most
    one further down when the call found an overflow and no further down
    otherwise; the counter stays below the growth interval. *)
Lemma step_at_level (k : nat) (u : Z) (params : list Tensor) :
  (k <= 166)%nat -> 0 <= u < 2000 ->
  exists k' u',
    snd (step (at_level k u) params) = at_level k' u'
    /\ (k' <= 166)%nat /\ 0 <= u' < 2000
    /\ (k' <= k + (if foundInf params then 1 else 0))%nat.
Proof.
  intros Hk Hu. unfold step. simpl.
  destruct (foundInf params).
  - exists (level_down k), 0. simpl.
    unfold set_unskippedSteps, set_scale, at_level. simpl.
    rewrite (level_backoff k Hk).
    pose proof (level_down_le k). repeat split; lia.
  - rewrite wrap_int_id by (unfold in_int, INT_MIN, INT_MAX; lia).
    destruct (u + 1 >=? 2000) eqn:Hreach.
    + exists (level_up k), 0. simpl.
      unfold set_unskippedSteps, set_scale, at_level. simpl.
      rewrite (level_growth k Hk).
      pose proof (level_up_le k Hk). repeat split; lia.
    + exists k, (u + 1). simpl.
      unfold set_unskippedSteps, at_level. simpl.
      repeat split; lia.
Qed.

Lemma run_at_level (calls : list (list Tensor)) :
  forall (k : nat) (u : Z),
    (k <= 166)%nat -> 0 <= u < 2000 ->
    exists k' u',
      run (at_level k u) calls = at_level k' u'
      /\ (k' <= 166)%nat /\ 0 <= u' < 2000
      /\ (k' <= k + overflows calls)%nat.
Proof.
  induction calls as [| params rest IH]; intros k u Hk Hu.
  - exists k, u. simpl. repeat split; lia.
  - simpl.
    destruct (step_at_level k u params Hk Hu)
      as [k1 [u1 [Hstep [Hk1 [Hu1 Hle1]]]]].
    rewrite Hstep.
    destruct (IH k1 u1 Hk1 Hu1) as [k2 [u2 [Hrun [Hk2 [Hu2 Hle2]]]]].
    exists k2, u2. repeat split; try assumption; try lia.
    unfold overflows in *. simpl.
    destruct (foundInf params); simpl; lia.
Qed.

(** C3, as the code has it: over every sequence of [step] calls from the
    default-constructed controller the scale stays within 0 <= scale <=
    65536, and it is strictly positive as long as fewer than 166 of the
    calls found an infinity or a NaN. *)
Theorem scale_range_over_run (calls : list (list Tensor)) :
  SFleb F32.zero (scale (run ManualGradScaler_default calls)) = true
  /\ SFleb (scale (run ManualGradScaler_default calls)) f65536 = true
  /\ ((overflows calls < 166)%nat ->
      SFltb F32.zero (scale (run ManualGradScaler_default calls)) = true).
Proof.
  destruct (run_at_level calls 0 0) as [k [u [Hrun [Hk [Hu Hle]]]]];
    [lia | lia |].
  change (at_level 0 0) with ManualGradScaler_default in Hrun.
  rewrite Hrun. simpl.
  destruct (level_range k Hk) as [Hlo Hhi].
  repeat split; try assumption.
  intros Hfew. apply level_positive. lia.
Qed.

Lemma scale_range_over_run_witness :
  (overflows (repeat [nan_param] 165) < 166)%nat
  /\ SFltb F32.zero
       (scale (run ManualGradScaler_default (repeat [nan_param] 165)))
     = true.
Proof.
  assert (H : (overflows (repeat [nan_param] 165) < 166)%nat)
    by (vm_compute; lia).
  split; [exact H |].
  exact (proj2 (proj2 (scale_range_over_run (repeat [nan_param] 165))) H).
Defined.

(** C3 as stated fails: 166 calls in a row that each find a NaN halve
    65536 = 2^16 down past the smallest binary32 number 2^-149, and the
    scale is +0, which is not positive. *)
Lemma scale_underflows_to_zero :
  scale (run ManualGradScaler_default (repeat [nan_param] 166))
  = S754_zero false
  /\ SFltb F32.zero
       (scale (run ManualGradScaler_default (repeat [nan_param] 166)))
     = false.
Proof.
  vm_compute. split; reflexivity.
Qed.

(* ------------------------------------------------------------------ *)
(** ** The constructor of [Model] *)

Lemma ScalarType_eqb_eq (a b : ScalarType) :
  ScalarType_eqb a b = true -> a = b.
Proof. destruct a, b; simpl; congruence. Qed.

Lemma to_device_keeps (t : Tensor) (dev : Device) :
  dtype (to_device t dev) = dtype t
  /\ sizes (to_device t dev) = sizes t
  /\ data (to_device t dev) = data t.
Proof.
  unfold to_device. destruct (Device_eqb (device t) dev); simpl; auto.
Qed.

Lemma toType_dtype (t : Tensor) (d : ScalarType) : dtype (toType t d) = d.
Proof.
  unfold toType. destruct (ScalarType_eqb (dtype t) d) eqn:E; simpl.
  - now apply ScalarType_eqb_eq.
  - reflexivity.
Qed.

Lemma assign_dc_dtype (N B : Z) (shs src shs' : Tensor) :
  assign_dc N B shs src = Some shs' -> dtype shs' = dtype shs.
Proof.
  unfold assign_dc. destruct (expand_rows N 3 src); [| discriminate].
  intros H. injection H as <-. reflexivity.
Qed.

Section ModelProperties.
Context {C : Collaborators}.
Variables (inputData : InputData.t) (a : Args.t).

(** The constructor, opened up: every call that can raise went
    through, and the model is the record the body assembles. *)
Lemma Model_new_inv (g0 : Generator) (m : ModelT) (g' : Generator) :
  Model_new inputData a g0 = Some (m, g') ->
  exists numPoints rep shs,
    let device := Args.device a in
    let xyz := Points.xyz (InputData.points inputData) in
    let g1 := manual_seed 42 in
    let dimSh := numShBases (Args.shDegree a) in
    let lowp := Args.mixedPrecision a && (Args.fp16Level a >=? 2)
                && Device_neb device (Device_of kCPU) in
    let rest32 :=
      requires_grad_ (to_device (slice_rest numPoints dimSh shs) device) in
    size0 xyz = Some numPoints
    /\ repeat_1_3 (fst (PointsTensor_scales xyz g1)) = Some rep
    /\ dtype shs = kFloat32
    /\ Model.scales m
       = requires_grad_
           (to_device (pointwise (log_kernel (dtype rep)) rep) device)
    /\ Model.quats m
       = requires_grad_
           (to_device
              (fst (randomQuatTensor numPoints
                      (snd (PointsTensor_scales xyz g1))))
              device)
    /\ Model.featuresDc m
       = requires_grad_ (to_device (select_dc numPoints dimSh shs) device)
    /\ Model.featuresRest m
       = (if lowp then requires_grad_ (toType rest32 kFloat16) else rest32)
    /\ Model.opacities m
       = requires_grad_
           (to_device
              (pointwise (logit_kernel kFloat32)
                         (mul_scalar (ones [numPoints; 1]) f0_1))
              device)
    /\ Model.gradScaler m
       = set_enabled ManualGradScaler_default
           (Args.mixedPrecision a && Device_neb device (Device_of kCPU))
    /\ Model.stopSplitAt m = int_div (Args.maxSteps a) 2
    /\ Model.ampWarmup m = Args.ampWarmup a.
Proof.
  unfold Model_new.
  destruct (size0 (Points.xyz (InputData.points inputData)))
    as [numPoints |] eqn:Hsize; [| discriminate].
  destruct (PointsTensor_scales (Points.xyz (InputData.points inputData))
                                (manual_seed 42)) as [knn g2] eqn:Hknn.
  destruct (repeat_1_3 knn) as [rep |] eqn:Hrep; [| discriminate].
  destruct (randomQuatTensor numPoints g2) as [q g3] eqn:Hq.
  destruct (numShBases (Args.shDegree a) <? 1); [discriminate |].
  destruct (assign_dc _ _ _ _) as [shs |] eqn:Hshs; [| discriminate].
  intros H. injection H as <- <-.
  exists numPoints, rep,
  (fill_rest_from numPoints (numShBases (Args.shDegree a)) 3 shs F32.zero).
cbv zeta.
  apply assign_dc_dtype in Hshs. simpl in Hshs.
  cbn [fst snd]. rewrite Hq. cbn [fst snd].
  destruct (Args.mixedPrecision a && (Args.fp16Level a >=? 2)
            && Device_neb (Args.device a) (Device_of kCPU));
    simpl; repeat split; assumption || reflexivity.
Qed.

(** The constructor returns a model on every well-shaped input: points
    with at least one dimension, neighbour scales of at most two
    dimensions, at least one spherical-harmonics basis, and colours that
    [rgb2sh] hands back in a shape that broadcasts to one row of three
    per point. *)
Lemma Model_new_succeeds (g0 : Generator) (numPoints : Z) :
  let xyz := Points.xyz (InputData.points inputData) in
  let rgb01 :=
    pointwise (fun x => F64.div x (F64.of_Z 255))
              (toType (Points.rgb (InputData.points inputData)) kFloat64) in
  size0 xyz = Some numPoints ->
  (length (sizes (fst (PointsTensor_scales xyz (manual_seed 42)))) <= 2)%nat ->
  1 <= numShBases (Args.shDegree a) ->
  expand_rows numPoints 3 (toType (rgb2sh rgb01) kFloat32) <> None ->
  exists m g', Model_new inputData a g0 = Some (m, g').
Proof.
  intros xyz rgb01 Hsize Hknn Hsh Hrgb. unfold Model_new.
  fold xyz. rewrite Hsize.
  destruct (PointsTensor_scales xyz (manual_seed 42)) as [knn g2].
  simpl in Hknn.
  assert (Hrep : exists rep, repeat_1_3 knn = Some rep).
  { unfold repeat_1_3.
    destruct (sizes knn) as [| r [| c [| x rest]]]; simpl in Hknn;
      try (eexists; reflexivity). lia. }
  destruct Hrep as [rep ->].
  destruct (randomQuatTensor numPoints g2) as [q g3].
  destruct (numShBases (Args.shDegree a) <? 1) eqn:Hlt;
    [apply Z.ltb_lt in Hlt; lia |].
  fold rgb01. unfold assign_dc.
  destruct (expand_rows numPoints 3 (toType (rgb2sh rgb01) kFloat32));
    [| congruence].
  eexists. eexists. reflexivity.
Qed.

End ModelProperties.

Lemma int_div_2 (n : Z) : in_int n -> int_div n 2 = Z.quot n 2.
Proof.
  intros Hn. unfold int_div. apply wrap_int_id.
  unfold in_int, INT_MIN, INT_MAX in *.
  pose proof (Z.quot_rem' n 2) as Hqr.
  pose proof (Z.rem_bound_abs n 2 ltac:(lia)) as Hrem.
  lia.
Qed.

Lemma DeviceType_eqb_eq (x y : DeviceType) :
  DeviceType_eqb x y = true <-> x = y.
Proof. destruct x, y; simpl; split; congruence. Qed.

(** Differing from [torch::kCPU]: another type, or an index. *)
Lemma Device_neb_kCPU_iff (d : Device) :
  Device_neb d (Device_of kCPU) = true
  <-> dev_type d <> kCPU \/ dev_index d <> -1.
Proof.
  unfold Device_neb, Device_eqb. cbn [Device_of dev_type dev_index].
  rewrite negb_true_iff, andb_false_iff.
  split.
  - intros [Ht | Hi].
    + left. intros Heq. apply DeviceType_eqb_eq in Heq. congruence.
    + right. now apply Z.eqb_neq.
  - intros [Ht | Hi].
    + left. destruct (DeviceType_eqb (dev_type d) kCPU) eqn:E;
        [| reflexivity].
      apply DeviceType_eqb_eq in E. contradiction.
    + right. now apply Z.eqb_neq.
Qed.

Section ModelClaims.
Context {C : Collaborators}.
Variables (inputData : InputData.t) (a : Args.t).
Variables (g0 : Generator) (m : ModelT) (g' : Generator).

(** C10: the constructor sets [stopSplitAt] to [maxSteps / 2], the
    integer quotient (truncated), from no other argument. *)
Theorem stopSplitAt_is_half_maxSteps :
  Model_new inputData a g0 = Some (m, g') ->
  in_int (Args.maxSteps a) ->
  Model.stopSplitAt m = Z.quot (Args.maxSteps a) 2.
Proof.
  intros Hnew Hint.
  destruct (Model_new_inv inputData a g0 m g' Hnew)
    as (numPoints & rep & shs & H).
  cbv zeta in H. decompose [and] H.
  rewrite <- (int_div_2 _ Hint). assumption.
Qed.

(** C9, as the code has it: after construction the loss-scaling
    controller is enabled exactly when mixed precision was requested and
    the device differs from [torch::kCPU] in torch's comparison of
    devices, that is, its type is not the CPU or its index is not the
    default -1. On the device [torch::kCPU] the controller is disabled and
    [scaleGradients] hands the loss back, also with mixed precision
    requested. *)
Theorem gradScaler_enabled_iff_mixed_off_cpu :
  Model_new inputData a g0 = Some (m, g') ->
  enabled (Model.gradScaler m)
  = Args.mixedPrecision a && Device_neb (Args.device a) (Device_of kCPU)
  /\ (enabled (Model.gradScaler m) = true
      <-> Args.mixedPrecision a = true
          /\ (dev_type (Args.device a) <> kCPU
              \/ dev_index (Args.device a) <> -1))
  /\ (Args.device a = Device_of kCPU ->
      enabled (Model.gradScaler m) = false
      /\ forall loss, scaleGradients (Model.gradScaler m) loss = loss).
Proof.
  intros Hnew.
  destruct (Model_new_inv inputData a g0 m g' Hnew)
    as (numPoints & rep & shs & H).
  cbv zeta in H. decompose [and] H.
  match goal with Hs : Model.gradScaler m = _ |- _ => rewrite Hs end.
  split; [reflexivity | split].
  - cbn [enabled set_enabled].
    rewrite andb_true_iff, Device_neb_kCPU_iff. reflexivity.
  - intros ->.
    change (Device_neb (Device_of kCPU) (Device_of kCPU)) with false.
    rewrite andb_false_r. split; reflexivity.
Qed.

(** C6: constructed from a point cloud of [N] points, [opacities] is an
    N x 1 tensor of single precision whose every entry is the logit of
    0.1f. *)
Theorem opacities_are_logit_of_one_tenth (N : Z) (dims : list Z) :
  Model_new inputData a g0 = Some (m, g') ->
  sizes (Points.xyz (InputData.points inputData)) = N :: dims ->
  sizes (Model.opacities m) = [N; 1]
  /\ data (Model.opacities m)
     = repeat (logit_kernel kFloat32 f0_1) (Z.to_nat N)
  /\ dtype (Model.opacities m) = kFloat32
  /\ f0_1 = S754_finite false 13421773 (-27).
Proof.
  intros Hnew Hxyz.
  destruct (Model_new_inv inputData a g0 m g' Hnew)
    as (numPoints & rep & shs & H).
  cbv zeta in H. decompose [and] H.
  match goal with Hs : size0 _ = _ |- _ =>
    unfold size0 in Hs; rewrite Hxyz in Hs; injection Hs as <- end.
  match goal with Hs : Model.opacities m = _ |- _ => rewrite Hs end.
  cbn [storage requires_grad_].
  destruct (to_device_keeps
              (pointwise (logit_kernel kFloat32)
                         (mul_scalar (ones [N; 1]) f0_1))
              (Args.device a)) as (Hd & Hs & Hv).
  rewrite Hd, Hs, Hv. simpl.
  repeat split; try reflexivity.
  rewrite !map_repeat.
  rewrite ?Z.mul_1_r. reflexivity.
Qed.

(** C5, as the code has it: at construction, before any step and
    whatever [ampWarmup] is, [featuresRest] is stored in half precision
    when mixed precision is requested at level 2 or above on a device
    other than [torch::kCPU], and in single precision otherwise;
    [featuresDc] and [opacities] are in single precision; [ampWarmup] is
    recorded and nothing else is done with it. *)
Theorem featuresRest_precision_at_construction :
  Model_new inputData a g0 = Some (m, g') ->
  dtype (Model.featuresRest m)
  = (if Args.mixedPrecision a && (Args.fp16Level a >=? 2)
        && Device_neb (Args.device a) (Device_of kCPU)
     then kFloat16 else kFloat32)
  /\ dtype (Model.featuresDc m) = kFloat32
  /\ dtype (Model.opacities m) = kFloat32
  /\ Model.ampWarmup m = Args.ampWarmup a.
Proof.
  intros Hnew.
  destruct (Model_new_inv inputData a g0 m g' Hnew)
    as (numPoints & rep & shs & H).
  cbv zeta in H. decompose [and] H.
  repeat match goal with
         | Hs : Model.featuresRest m = _ |- _ => rewrite Hs; clear Hs
         | Hs : Model.featuresDc m = _ |- _ => rewrite Hs; clear Hs
         | Hs : Model.opacities m = _ |- _ => rewrite Hs; clear Hs
         end.
  repeat split; try assumption.
  - destruct (Args.mixedPrecision a && (Args.fp16Level a >=? 2)
              && Device_neb (Args.device a) (Device_of kCPU)).
    + cbn [storage requires_grad_]. apply toType_dtype.
    + cbn [storage requires_grad_].
      rewrite (proj1 (to_device_keeps _ _)). simpl. assumption.
  - cbn [storage requires_grad_].
    rewrite (proj1 (to_device_keeps _ _)). simpl. assumption.
  - cbn [storage requires_grad_].
    rewrite (proj1 (to_device_keeps _ _)). reflexivity.
Qed.

(** C7: the constructor seeds the generator itself, with 42, so two
    constructions from the same input data give the same [quats] and
    the same [scales], whatever state the generator was in before
    each. *)
Theorem construction_is_reproducible
        (h0 : Generator) (m2 : ModelT) (h' : Generator) :
  Model_new inputData a g0 = Some (m, g') ->
  Model_new inputData a h0 = Some (m2, h') ->
  Model.quats m = Model.quats m2 /\ Model.scales m = Model.scales m2.
Proof.
  intros H1 H2.
  destruct (Model_new_inv inputData a g0 m g' H1) as (n1 & rep1 & shs1 & K1).
  destruct (Model_new_inv inputData a h0 m2 h' H2) as (n2 & rep2 & shs2 & K2).
  cbv zeta in K1, K2. decompose [and] K1. decompose [and] K2.
  assert (n1 = n2) by congruence. assert (rep1 = rep2) by congruence.
  subst. split; congruence.
Qed.

End ModelClaims.

(* ------------------------------------------------------------------ *)
(** ** The constructor on the sample input *)

Lemma sample_run_returns (dev : Device) : sample_run dev <> None.
Proof.
  unfold sample_run.
  destruct (Model_new_succeeds (C := sample_collaborators)
              sample_input (sample_args dev) 0 2) as (m & g' & H);
    try (rewrite H; discriminate).
  - reflexivity.
  - simpl. lia.
  - simpl. lia.
  - vm_compute. discriminate.
Qed.

Lemma stopSplitAt_is_half_maxSteps_witness :
  in_int (Args.maxSteps (sample_args cuda))
  /\ exists m g',
      sample_run cuda = Some (m, g') /\ Model.stopSplitAt m = 15000.
Proof.
  assert (Hint : in_int (Args.maxSteps (sample_args cuda)))
    by (unfold in_int, INT_MIN, INT_MAX; simpl; lia).
  split; [exact Hint |].
  destruct (sample_run cuda) as [[m g'] |] eqn:Hrun.
  - exists m, g'. split; [reflexivity |].
    exact (stopSplitAt_is_half_maxSteps (C := sample_collaborators)
             sample_input (sample_args cuda) 0 m g' Hrun Hint).
  - exfalso. exact (sample_run_returns cuda Hrun).
Defined.

Lemma gradScaler_enabled_iff_mixed_off_cpu_witness :
  exists m g',
    sample_run cpu = Some (m, g') /\ enabled (Model.gradScaler m) = false.
Proof.
  destruct (sample_run cpu) as [[m g'] |] eqn:Hrun.
  - exists m, g'. split; [reflexivity |].
    exact (proj1 (gradScaler_enabled_iff_mixed_off_cpu
                    (C := sample_collaborators)
                    sample_input (sample_args cpu) 0 m g' Hrun)).
  - exfalso. exact (sample_run_returns cpu Hrun).
Defined.

Lemma opacities_are_logit_of_one_tenth_witness :
  sizes (Points.xyz (InputData.points sample_input)) = [2; 3]
  /\ exists m g',
      sample_run cuda = Some (m, g')
      /\ sizes (Model.opacities m) = [2; 1]
      /\ data (Model.opacities m) = [f0_1; f0_1].
Proof.
  split; [reflexivity |].
  destruct (sample_run cuda) as [[m g'] |] eqn:Hrun.
  - exists m, g'. split; [reflexivity |].
    pose proof (opacities_are_logit_of_one_tenth (C := sample_collaborators)
                  sample_input (sample_args cuda) 0 m g' 2 [3] Hrun eq_refl)
      as (Hs & Hd & _).
    split; [exact Hs | exact Hd].
  - exfalso. exact (sample_run_returns cuda Hrun).
Defined.

Lemma featuresRest_precision_at_construction_witness :
  exists m g',
    sample_run cpu = Some (m, g')
    /\ dtype (Model.featuresRest m) = kFloat32.
Proof.
  destruct (sample_run cpu) as [[m g'] |] eqn:Hrun.
  - exists m, g'. split; [reflexivity |].
    exact (proj1 (featuresRest_precision_at_construction
                    (C := sample_collaborators)
                    sample_input (sample_args cpu) 0 m g' Hrun)).
  - exfalso. exact (sample_run_returns cpu Hrun).
Defined.

Lemma construction_is_reproducible_witness :
  exists m g' m2 h',
    Model_new (C := sample_collaborators) sample_input (sample_args cuda) 0
    = Some (m, g')
    /\ Model_new (C := sample_collaborators) sample_input (sample_args cuda) 7
       = Some (m2, h')
    /\ Model.quats m = Model.quats m2
    /\ Model.scales m = Model.scales m2.
Proof.
  destruct (sample_run cuda) as [[m g'] |] eqn:Hrun.
  - exists m, g', m, g'. split; [exact Hrun | split; [exact Hrun |]].
    exact (construction_is_reproducible (C := sample_collaborators)
             sample_input (sample_args cuda) 0 m g' 7 m g' Hrun Hrun).
  - exfalso. exact (sample_run_returns cuda Hrun).
Defined.

(** C5 as stated fails: with mixed precision requested at level 2 on a
    CUDA device and a warm-up of 1000 steps, the model that leaves the
    constructor, before the first step, already stores [featuresRest] in
    half precision. *)
Lemma fp16_storage_before_warmup_ends :
  Args.mixedPrecision (sample_args cuda) = true
  /\ Args.ampWarmup (sample_args cuda) = 1000
  /\ option_map (fun r => dtype (Model.featuresRest (fst r))) (sample_run cuda)
     = Some kFloat16.
Proof.
  vm_compute. repeat split; reflexivity.
Qed.

(** C9 as stated fails: the CPU given with an index, cpu:0, is a CPU
    device, and with mixed precision requested the controller of the
    constructed model is enabled, because that device compares unequal to
    [torch::kCPU]. *)
Lemma cpu_with_index_enables_scaler :
  dev_type (mkDevice kCPU 0) = kCPU
  /\ Args.mixedPrecision (sample_args (mkDevice kCPU 0)) = true
  /\ option_map (fun r => enabled (Model.gradScaler (fst r)))
                (sample_run (mkDevice kCPU 0))
     = Some true.
Proof.
  vm_compute. repeat split; reflexivity.
Qed.

(* ------------------------------------------------------------------ *)
(** ** More on [ManualGradScaler::step]: what a call reads and keeps *)

Lemma step_keeps_configuration (s : ManualGradScaler) (params : list Tensor) :
  growthFactor (snd (step s params)) = growthFactor s
  /\ backoffFactor (snd (step s params)) = backoffFactor s
  /\ growthInterval (snd (step s params)) = growthInterval s
  /\ enabled (snd (step s params)) = enabled s.
Proof.
  unfold step.
  destruct (enabled s) eqn:Hen; simpl; [| now rewrite Hen].
  destruct (foundInf params); simpl; [now rewrite Hen |].
  destruct (wrap_int (unskippedSteps s + 1) >=? growthInterval s);
    simpl; now rewrite Hen.
Qed.

(** X1: no sequence of [step] calls changes the growth factor, the
    backoff factor, the growth interval or the [enabled] flag of a
    controller; only [scale] and [unskippedSteps] move. *)
Theorem run_keeps_configuration (calls : list (list Tensor)) :
  forall s : ManualGradScaler,
    growthFactor (run s calls) = growthFactor s
    /\ backoffFactor (run s calls) = backoffFactor s
    /\ growthInterval (run s calls) = growthInterval s
    /\ enabled (run s calls) = enabled s.
Proof.
  induction calls as [| params rest IH]; intros s; simpl.
  - repeat split.
  - destruct (IH (snd (step s params))) as (Hg & Hb & Hi & He).
    destruct (step_keeps_configuration s params) as (Hg' & Hb' & Hi' & He').
    repeat split; congruence.
Qed.

Lemma step_counter_bound (s : ManualGradScaler) (params : list Tensor) :
  0 <= unskippedSteps s < growthInterval s ->
  growthInterval s <= INT_MAX ->
  0 <= unskippedSteps (snd (step s params)) < growthInterval s.
Proof.
  intros Hu Hi. unfold step.
  destruct (enabled s); simpl; [| lia].
  destruct (foundInf params); simpl; [lia |].
  rewrite wrap_int_id by (unfold in_int, INT_MIN, INT_MAX in *; lia).
  destruct (unskippedSteps s + 1 >=? growthInterval s) eqn:Hreach; simpl.
  - lia.
  - rewrite Z.geb_leb in Hreach. apply Z.leb_gt in Hreach. lia.
Qed.

(** X2: a counter that starts within [0, growthInterval) stays there over
    every sequence of calls, for every growth interval an [int] can hold:
    the increment of [step] never runs past [INT_MAX]. *)
Theorem counter_stays_below_interval (calls : list (list Tensor)) :
  forall s : ManualGradScaler,
    0 <= unskippedSteps s < growthInterval s ->
    growthInterval s <= INT_MAX ->
    0 <= unskippedSteps (run s calls) < growthInterval s.
Proof.
  induction calls as [| params rest IH]; intros s Hu Hi; simpl.
  - exact Hu.
  - destruct (step_keeps_configuration s params) as (_ & _ & Hgi & _).
    rewrite <- Hgi. apply IH; rewrite Hgi.
    + now apply step_counter_bound.
    + exact Hi.
Qed.

Lemma counter_stays_below_interval_witness :
  0 <= unskippedSteps (at_level 0 1999) < growthInterval (at_level 0 1999)
  /\ growthInterval (at_level 0 1999) <= INT_MAX
  /\ 0 <= unskippedSteps
            (run (at_level 0 1999) [[finite_param]; [nan_param]; []])
       < 2000.
Proof.
  assert (Hu : 0 <= unskippedSteps (at_level 0 1999)
               < growthInterval (at_level 0 1999)) by (simpl; lia).
  assert (Hi : growthInterval (at_level 0 1999) <= INT_MAX)
    by (unfold INT_MAX; simpl; lia).
  split; [exact Hu | split; [exact Hi |]].
  exact (counter_stays_below_interval
           [[finite_param]; [nan_param]; []] (at_level 0 1999) Hu Hi).
Defined.

(** X3: [step] returns false exactly when scaling is enabled and some
    parameter has a defined gradient holding an infinity or a NaN; in every
    other case the caller is told to apply the update. *)
Theorem step_returns_false_iff (s : ManualGradScaler) (params : list Tensor) :
  fst (step s params) = false
  <-> enabled s = true /\ Exists has_nonfinite_grad params.
Proof.
  rewrite <- foundInf_true_iff. unfold step.
  destruct (enabled s); simpl.
  - destruct (foundInf params); simpl.
    + tauto.
    + destruct (wrap_int (unskippedSteps s + 1) >=? growthInterval s);
        simpl; split; try discriminate; intros [_ H]; discriminate.
  - split; [discriminate | intros [H _]; discriminate].
Qed.

Lemma foundInf_filter_has_grad (params : list Tensor) :
  foundInf (filter has_grad params) = foundInf params.
Proof.
  induction params as [| p rest IH]; simpl; [reflexivity |].
  unfold has_grad at 1. destruct (grad p) as [g |] eqn:Hg; simpl.
  - rewrite Hg, IH. reflexivity.
  - exact IH.
Qed.

(** X4: parameters whose gradient is undefined take no part in [step]:
    the call gives the same flag and the same controller as on the list
    without them. *)
Theorem step_ignores_undefined_grads (s : ManualGradScaler)
        (params : list Tensor) :
  step s params = step s (filter has_grad params).
Proof.
  unfold step. now rewrite foundInf_filter_has_grad.
Qed.

Lemma foundInf_permutation (params params' : list Tensor) :
  Permutation params params' -> foundInf params = foundInf params'.
Proof.
  intros Hperm.
  destruct (foundInf params) eqn:H1, (foundInf params') eqn:H2;
    try reflexivity.
  - apply foundInf_true_iff in H1. apply Exists_exists in H1.
    destruct H1 as (p & Hin & Hp).
    assert (Hex : Exists has_nonfinite_grad params').
    { apply Exists_exists. exists p. split; [| exact Hp].
      now apply (Permutation_in _ Hperm). }
    apply foundInf_true_iff in Hex. congruence.
  - apply foundInf_true_iff in H2. apply Exists_exists in H2.
    destruct H2 as (p & Hin & Hp).
    assert (Hex : Exists has_nonfinite_grad params).
    { apply Exists_exists. exists p. split; [| exact Hp].
      apply (Permutation_in _ (Permutation_sym Hperm)). exact Hin. }
    apply foundInf_true_iff in Hex. congruence.
Qed.

(** X5: the order of the parameters does not matter to [step]: leaving
    the loop at the first non-finite gradient only saves work, the flag and
    the controller are the same for every reordering of the list. *)
Theorem step_order_irrelevant (s : ManualGradScaler)
        (params params' : list Tensor) :
  Permutation params params' ->
  step s params = step s params'.
Proof.
  intros Hperm. unfold step.
  now rewrite (foundInf_permutation params params' Hperm).
Qed.

Lemma step_order_irrelevant_witness :
  Permutation [finite_param; nan_param] [nan_param; finite_param]
  /\ step ManualGradScaler_default [finite_param; nan_param]
     = step ManualGradScaler_default [nan_param; finite_param].
Proof.
  assert (Hperm : Permutation [finite_param; nan_param]
                              [nan_param; finite_param])
    by apply perm_swap.
  split; [exact Hperm |].
  exact (step_order_irrelevant ManualGradScaler_default _ _ Hperm).
Defined.

(* ------------------------------------------------------------------ *)
(** ** More on the scale over a run *)

Lemma run_app (calls1 calls2 : list (list Tensor)) :
  forall s, run s (calls1 ++ calls2) = run (run s calls1) calls2.
Proof.
  induction calls1 as [| params rest IH]; intros s; simpl;
    [reflexivity | apply IH].
Qed.

Lemma step_zero_scale (s : ManualGradScaler) (params : list Tensor)
      (mg mb : positive) (eg eb : Z) :
  scale s = S754_zero false ->
  growthFactor s = S754_finite false mg eg ->
  backoffFactor s = S754_finite false mb eb ->
  scale (snd (step s params)) = S754_zero false.
Proof.
  intros Hs Hg Hb. unfold step.
  destruct (enabled s); simpl; [| exact Hs].
  destruct (foundInf params); simpl.
  - rewrite Hs, Hb. reflexivity.
  - destruct (wrap_int (unskippedSteps s + 1) >=? growthInterval s); simpl.
    + rewrite Hs, Hg. reflexivity.
    + exact Hs.
Qed.

(** X6: a scale that has reached +0 stays +0: with finite positive growth
    and backoff factors (2 and 0.5 by default) no sequence of calls, clean
    or not, brings it back. *)
Theorem zero_scale_is_absorbing (calls : list (list Tensor))
        (mg mb : positive) (eg eb : Z) :
  forall s : ManualGradScaler,
    scale s = S754_zero false ->
    growthFactor s = S754_finite false mg eg ->
    backoffFactor s = S754_finite false mb eb ->
    scale (run s calls) = S754_zero false.
Proof.
  induction calls as [| params rest IH]; intros s Hs Hg Hb; simpl.
  - exact Hs.
  - destruct (step_keeps_configuration s params) as (Hg' & Hb' & _ & _).
    apply IH.
    + exact (step_zero_scale s params mg mb eg eb Hs Hg Hb).
    + congruence.
    + congruence.
Qed.

Lemma zero_scale_is_absorbing_witness :
  scale (at_level 166 0) = S754_zero false
  /\ growthFactor (at_level 166 0) = S754_finite false 8388608 (-22)
  /\ backoffFactor (at_level 166 0) = S754_finite false 8388608 (-24)
  /\ scale (run (at_level 166 0) [[finite_param]; [nan_param]])
     = S754_zero false.
Proof.
  split; [reflexivity | split; [reflexivity | split; [reflexivity |]]].
  exact (zero_scale_is_absorbing [[finite_param]; [nan_param]]
           8388608 8388608 (-22) (-24) (at_level 166 0)
           eq_refl eq_refl eq_refl).
Defined.

Lemma step_at_level_overflow (k : nat) (u : Z) (params : list Tensor) :
  (k <= 166)%nat -> foundInf params = true ->
  step (at_level k u) params = (false, at_level (level_down k) 0).
Proof.
  intros Hk Hf. unfold step. simpl. rewrite Hf.
  unfold set_unskippedSteps, set_scale, at_level. simpl.
  now rewrite (level_backoff k Hk).
Qed.

Lemma step_at_level_clean (k : nat) (u : Z) (params : list Tensor) :
  (k <= 166)%nat -> 0 <= u < 2000 -> foundInf params = false ->
  step (at_level k u) params
  = (true, if u + 1 >=? 2000 then at_level (level_up k) 0
           else at_level k (u + 1)).
Proof.
  intros Hk Hu Hf. unfold step. simpl. rewrite Hf.
  rewrite wrap_int_id by (unfold in_int, INT_MIN, INT_MAX; lia).
  destruct (u + 1 >=? 2000); simpl;
    unfold set_unskippedSteps, set_scale, at_level; simpl.
  - now rewrite (level_growth k Hk).
  - reflexivity.
Qed.

(** Clean calls that do not fill the growth interval only count. *)
Lemma run_clean_counts (calls : list (list Tensor)) :
  forall (k : nat) (u : Z),
    (k <= 166)%nat -> 0 <= u -> u + Z.of_nat (length calls) < 2000 ->
    clean calls ->
    run (at_level k u) calls = at_level k (u + Z.of_nat (length calls)).
Proof.
  induction calls as [| params rest IH]; intros k u Hk Hu Hlen Hclean.
  - simpl. now rewrite Z.add_0_r.
  - inversion Hclean as [| ? ? Hp Hrest]; subst.
    cbn [run]. cbn [length] in Hlen |- *.
    rewrite (step_at_level_clean k u params Hk ltac:(lia) Hp).
    destruct (u + 1 >=? 2000) eqn:Hreach; [lia |].
    cbn [snd]. rewrite (IH k (u + 1)) by (assumption || lia).
    f_equal. lia.
Qed.

(** X7: recovery. After a call that found an overflow, growthInterval
    (2000) clean calls in a row bring the scale of the default controller
    back to what it was before, at every level above the last two of the
    underflow range and whatever the counter was. *)
Theorem scale_recovers_after_clean_interval
        (k : nat) (u : Z) (bad : list Tensor) (calls : list (list Tensor)) :
  (k < 165)%nat -> 0 <= u < 2000 ->
  foundInf bad = true ->
  clean calls -> length calls = 2000%nat ->
  run (at_level k u) (bad :: calls) = at_level k 0.
Proof.
  intros Hk Hu Hbad Hclean Hlen.
  cbn [run]. rewrite (step_at_level_overflow k u bad) by (assumption || lia).
  cbn [snd].
  assert (Hdown : level_down k = S k) by (unfold level_down; lia).
  rewrite Hdown.
  destruct (exists_last (l := calls)) as (front & final & Hsplit).
  { intros ->. discriminate. }
  subst calls. rewrite length_app in Hlen. simpl in Hlen.
  unfold clean in Hclean. apply Forall_app in Hclean.
  destruct Hclean as [Hfront Hfinal].
  inversion Hfinal as [| ? ? Hfin _]; subst.
  rewrite run_app.
  rewrite (run_clean_counts front (S k) 0) by (assumption || lia).
  cbn [run].
  rewrite (step_at_level_clean (S k) _ final) by (assumption || lia).
  replace (0 + Z.of_nat (length front) + 1 >=? 2000) with true
    by (symmetry; rewrite Z.geb_leb; apply Z.leb_le; lia).
  cbn [snd]. f_equal.
  unfold level_up.
  destruct (Nat.eqb (S k) 166) eqn:E; [apply Nat.eqb_eq in E; lia |].
  reflexivity.
Qed.

Lemma repeat_clean (n : nat) : clean (repeat [finite_param] n).
Proof.
  unfold clean. apply Forall_forall. intros params Hin.
  apply repeat_spec in Hin. subst. reflexivity.
Qed.

Lemma scale_recovers_after_clean_interval_witness :
  (3 < 165)%nat /\ 0 <= 17 < 2000
  /\ foundInf [nan_param] = true
  /\ clean (repeat [finite_param] 2000)
  /\ length (repeat [finite_param] 2000) = 2000%nat
  /\ run (at_level 3 17) ([nan_param] :: repeat [finite_param] 2000)
     = at_level 3 0.
Proof.
  assert (H1 : (3 < 165)%nat) by lia.
  assert (H2 : 0 <= 17 < 2000) by lia.
  assert (H3 : length (repeat [finite_param] 2000) = 2000%nat)
    by apply repeat_length.
  split; [exact H1 | split; [exact H2 | split; [reflexivity |]]].
  split; [apply repeat_clean | split; [exact H3 |]].
  exact (scale_recovers_after_clean_interval 3 17 [nan_param]
           (repeat [finite_param] 2000) H1 H2 eq_refl (repeat_clean 2000) H3).
Defined.

Lemma level_antitone (k k' : nat) :
  (k <= k')%nat -> (k' <= 166)%nat -> SFleb (level k') (level k) = true.
Proof.
  intros Hle Hk'.
  assert (Hall : forallb (fun i => forallb (fun j => Nat.ltb j i
                                             || SFleb (level j) (level i))
                                           (seq 0 167))
                         (seq 0 167) = true)
    by (vm_compute; reflexivity).
  rewrite forallb_forall in Hall.
  specialize (Hall k ltac:(apply in_seq; lia)).
  rewrite forallb_forall in Hall.
  specialize (Hall k' ltac:(apply in_seq; lia)).
  apply orb_true_iff in Hall. destruct Hall as [Hlt | H]; [| exact H].
  apply Nat.ltb_lt in Hlt. lia.
Qed.

Lemma run_short_no_growth (calls : list (list Tensor)) :
  forall (k : nat) (u : Z),
    (k <= 166)%nat -> 0 <= u -> u + Z.of_nat (length calls) < 2000 ->
    exists k' u',
      run (at_level k u) calls = at_level k' u'
      /\ (k <= k')%nat /\ (k' <= 166)%nat.
Proof.
  induction calls as [| params rest IH]; intros k u Hk Hu Hlen.
  - exists k, u. simpl. repeat split; lia.
  - cbn [run]. cbn [length] in Hlen.
    destruct (foundInf params) eqn:Hf.
    + rewrite (step_at_level_overflow k u params Hk Hf). cbn [snd].
      pose proof (level_down_le k) as [Hd1 Hd2].
      destruct (IH (level_down k) 0 Hd1 ltac:(lia) ltac:(lia))
        as (k' & u' & Hrun & Hle & Hk').
      exists k', u'. repeat split; try assumption.
      unfold level_down in Hle. lia.
    + rewrite (step_at_level_clean k u params Hk ltac:(lia) Hf).
      destruct (u + 1 >=? 2000) eqn:Hreach;
        [rewrite Z.geb_leb in Hreach; apply Z.leb_le in Hreach; lia |].
      cbn [snd].
      destruct (IH k (u + 1) Hk ltac:(lia) ltac:(lia))
        as (k' & u' & Hrun & Hle & Hk').
      exists k', u'. repeat split; assumption.
Qed.

(** X8: the scale of the default controller does not grow before the
    counter has run through the growth interval: over any sequence of
    calls too short to bring the counter [u] to 2000, the scale is at most
    what it was at the start. *)
Theorem no_growth_before_interval
        (k : nat) (u : Z) (calls : list (list Tensor)) :
  (k <= 166)%nat -> 0 <= u -> u + Z.of_nat (length calls) < 2000 ->
  SFleb (scale (run (at_level k u) calls)) (scale (at_level k u)) = true.
Proof.
  intros Hk Hu Hlen.
  destruct (run_short_no_growth calls k u Hk Hu Hlen)
    as (k' & u' & Hrun & Hle & Hk').
  rewrite Hrun. simpl. now apply level_antitone.
Qed.

Lemma no_growth_before_interval_witness :
  (2 <= 166)%nat /\ 0 <= 1990
  /\ 1990 + Z.of_nat (length [[finite_param]; [nan_param]; [finite_param]])
     < 2000
  /\ SFleb (scale (run (at_level 2 1990)
                       [[finite_param]; [nan_param]; [finite_param]]))
           (scale (at_level 2 1990)) = true.
Proof.
  assert (H1 : (2 <= 166)%nat) by lia.
  assert (H2 : 0 <= 1990) by lia.
  assert (H3 : 1990 + Z.of_nat (length [[finite_param]; [nan_param];
                                        [finite_param]]) < 2000)
    by (simpl; lia).
  split; [exact H1 | split; [exact H2 | split; [exact H3 |]]].
  exact (no_growth_before_interval 2 1990
           [[finite_param]; [nan_param]; [finite_param]] H1 H2 H3).
Defined.

Lemma nth_halvings (n k : nat) (x : spec_float) :
  (k < n)%nat -> nth k (halvings n x) F32.zero = halved k x.
Proof.
  revert k x. induction n as [| n IH]; intros k x Hk; [lia |].
  destruct k as [| k]; [reflexivity |].
  cbn [halvings nth]. rewrite IH by lia.
  unfold halved. symmetry.
  exact (Nat.iter_succ_r k spec_float (fun y => F32.mul y f0_5) x).
Qed.

Lemma level_is_halved (k : nat) :
  (k <= 166)%nat -> level k = halved k f65536.
Proof.
  intros Hk. unfold level.
  change scale_levels with (halvings 167 f65536).
  apply nth_halvings. lia.
Qed.

(** X9: every scale the default controller can reach is 65536 halved [k]
    times in binary32, for a [k] that is at most 166 and at most the
    number of calls that found an overflow; growth exactly undoes
    backoffs. The rest of the controller is as constructed, with the
    counter below 2000. *)
Theorem reachable_controllers (calls : list (list Tensor)) :
  exists (k : nat) (u : Z),
    run ManualGradScaler_default calls
    = mkScaler (halved k f65536) f2 f0_5 2000 u true
    /\ (k <= 166)%nat /\ (k <= overflows calls)%nat /\ 0 <= u < 2000.
Proof.
  destruct (run_at_level calls 0 0) as (k & u & Hrun & Hk & Hu & Hle);
    [lia | lia |].
  exists k, u.
  change (at_level 0 0) with ManualGradScaler_default in Hrun.
  rewrite Hrun. unfold at_level. rewrite (level_is_halved k Hk).
  repeat split; try assumption; lia.
Qed.

(* ------------------------------------------------------------------ *)
(** ** Scaling and unscaling by a power of two *)

Lemma fexp32 (x : Z) : fexp 24 128 x = Z.max (x - 24) (-149).
Proof. reflexivity. Qed.

Lemma shr_fexp_in_place (m : positive) (e : Z) :
  digits2_pos m = 24%positive -> -149 <= e ->
  shr_fexp 24 128 (Zpos m) e loc_Exact
  = (Build_shr_record (Zpos m) false false, e).
Proof.
  intros Hd He. unfold shr_fexp, Zdigits2. rewrite Hd, fexp32.
  replace (Z.max (24 + e - 24) (-149) - e) with 0 by lia.
  reflexivity.
Qed.

(** Rounding a mantissa that is already in place: no shift, no change. *)
Lemma round_in_place (s : bool) (m : positive) (e : Z) :
  digits2_pos m = 24%positive -> -149 <= e <= 104 ->
  binary_round_aux 24 128 s (Zpos m) e loc_Exact = S754_finite s m e.
Proof.
  intros Hd He. unfold binary_round_aux.
  rewrite (shr_fexp_in_place m e Hd) by lia.
  cbn [shr_m loc_of_shr_record round_nearest_even].
  rewrite (shr_fexp_in_place m e Hd) by lia.
  cbn [shr_m].
  replace (e <=? 128 - 24) with true by (symmetry; apply Z.leb_le; lia).
  reflexivity.
Qed.

(** Rounding a mantissa whose [n] low bits are zero: they are shifted out
    and nothing is lost. *)
Lemma round_shift (n : positive) (big m : positive) (s : bool) (e : Z) :
  digits2_pos big = (24 + n)%positive ->
  iter_pos shr_1 n (Build_shr_record (Zpos big) false false)
  = Build_shr_record (Zpos m) false false ->
  digits2_pos m = 24%positive ->
  -149 <= e + Zpos n <= 104 ->
  binary_round_aux 24 128 s (Zpos big) e loc_Exact
  = S754_finite s m (e + Zpos n).
Proof.
  intros Hbig Hshr Hd He.
  unfold binary_round_aux. unfold shr_fexp at 1.
  unfold Zdigits2 at 1. rewrite Hbig, fexp32.
  replace (Z.max (Zpos (24 + n) + e - 24) (-149) - e) with (Zpos n) by lia.
  cbn [shr shr_record_of_loc]. rewrite Hshr.
  cbn [shr_m loc_of_shr_record round_nearest_even].
  rewrite (shr_fexp_in_place m (e + Zpos n) Hd) by lia.
  cbn [shr_m].
  replace (e + Zpos n <=? 128 - 24) with true
    by (symmetry; apply Z.leb_le; lia).
  reflexivity.
Qed.

Lemma mul_pow2 (s : bool) (m : positive) (e q : Z) :
  digits2_pos m = 24%positive ->
  -149 <= e + q + 23 <= 104 ->
  SFmul 24 128 (S754_finite s m e) (pow2 q) = S754_finite s m (e + q + 23).
Proof.
  intros Hd Hr. unfold pow2, SFmul.
  rewrite xorb_false_r, Pos.mul_comm.
  rewrite (round_shift 23 (8388608 * m) m s (e + q)).
  - reflexivity.
  - cbn [Pos.mul digits2_pos]. rewrite Hd. reflexivity.
  - reflexivity.
  - exact Hd.
  - lia.
Qed.

Lemma div_eucl_exact (a b : Z) : 0 < b -> Z.div_eucl (a * b) b = (a, 0).
Proof.
  intros Hb.
  pose proof (Z.div_mul a b ltac:(lia)) as Hq.
  pose proof (Z.mod_mul a b ltac:(lia)) as Hm.
  unfold Z.div, Z.modulo in Hq, Hm.
  destruct (Z.div_eucl (a * b) b) as [q r]. simpl in *. congruence.
Qed.

Lemma div_pow2 (s : bool) (m : positive) (e q : Z) :
  digits2_pos m = 24%positive ->
  -149 <= e <= 104 ->
  SFdiv 24 128 (S754_finite s m (e + q + 23)) (pow2 q) = S754_finite s m e.
Proof.
  intros Hd He. unfold pow2, SFdiv, SFdiv_core_binary.
  rewrite xorb_false_r.
  unfold Zdigits2. rewrite Hd. change (digits2_pos 8388608) with 24%positive.
  rewrite fexp32.
  destruct (Z.eq_dec e (-149)) as [-> | Hne].
  - replace (Z.min (Z.max (24 + (-149 + q + 23) - (24 + q) - 24) (-149))
                   (-149 + q + 23 - q)) with (-149) by lia.
    replace (-149 + q + 23 - q - -149) with 23 by lia.
    cbv beta iota zeta.
    change (Z.shiftl (Zpos m) 23) with (8388608 * Zpos m).
    rewrite (Z.mul_comm 8388608 (Zpos m)).
    rewrite (div_eucl_exact (Zpos m) 8388608) by lia.
    change (new_location 8388608 0) with loc_Exact.
    apply round_in_place; [exact Hd | lia].
  - replace (Z.min (Z.max (24 + (e + q + 23) - (24 + q) - 24) (-149))
                   (e + q + 23 - q)) with (e - 1) by lia.
    replace (e + q + 23 - q - (e - 1)) with 24 by lia.
    cbv beta iota zeta.
    change (Z.shiftl (Zpos m) 24) with (8388608 * Zpos m~0).
    rewrite (Z.mul_comm 8388608 (Zpos m~0)).
    rewrite (div_eucl_exact (Zpos m~0) 8388608) by lia.
    change (new_location 8388608 0) with loc_Exact.
    rewrite (round_shift 1 (m~0) m s (e - 1)).
    + f_equal. lia.
    + cbn [digits2_pos]. rewrite Hd. reflexivity.
    + reflexivity.
    + exact Hd.
    + lia.
Qed.

Lemma div_mul_pow2 (q : Z) (x : spec_float) :
  scales_exactly q x ->
  F32.div (F32.mul x (pow2 q)) (pow2 q) = x.
Proof.
  unfold F32.mul, F32.div, F32.prec, F32.emax.
  destruct x as [s | s | | s m e]; simpl scales_exactly.
  - intros _. destruct s; reflexivity.
  - intros _. destruct s; reflexivity.
  - reflexivity.
  - intros (Hd & He & Hr).
    rewrite (mul_pow2 s m e q Hd Hr). now apply div_pow2.
Qed.

Lemma level_is_pow2 (k : nat) :
  (k <= 142)%nat -> level k = pow2 (-7 - Z.of_nat k).
Proof.
  intros Hk. apply SF_same_eq.
  assert (Hall : forallb (fun k => SF_same (level k)
                                           (pow2 (-7 - Z.of_nat k)))
                         (seq 0 143) = true)
    by (vm_compute; reflexivity).
  rewrite forallb_forall in Hall. apply Hall. apply in_seq. lia.
Qed.

(** X10: round trip. With scaling enabled and a scale that is a normal
    power of two (as every scale of the default controller down to 2^-126
    is), [unscaleGradients] undoes [scaleGradients] bit for bit on a
    single-precision tensor whose elements are zeros, infinities, NaNs or
    normal numbers that the scale keeps in the normal range. *)
Theorem unscale_after_scale_is_exact
        (s : ManualGradScaler) (t : Tensor) (q : Z) :
  enabled s = true ->
  scale s = pow2 q ->
  dtype t = kFloat32 ->
  Forall (scales_exactly q) (data t) ->
  unscaleGradients s (Some (storage (scaleGradients s t)))
  = Some (Some (storage t)).
Proof.
  intros Hen Hs Hd Hall.
  unfold unscaleGradients, scaleGradients. rewrite Hen. cbn [negb].
  unfold div_scalar_, div_elements, mul_scalar.
  cbn [storage sizes dtype device data].
  rewrite Hd. cbn [result_type is_floating scalar_op].
  rewrite map_map, Hs.
  destruct t as [[sz d dev elems] rg gr]. cbn in *. subst d.
  do 3 f_equal.
  induction Hall as [| x rest Hx _ IH]; [reflexivity |].
  cbn [map]. now rewrite (div_mul_pow2 q x Hx), IH.
Qed.

Lemma sample_grad_scales_exactly :
  Forall (scales_exactly (-7)) (data sample_grad).
Proof.
  unfold sample_grad. cbn [data].
  repeat (apply Forall_cons || apply Forall_nil);
    vm_compute; repeat split; try reflexivity; intros Hc; discriminate Hc.
Defined.

Lemma unscale_after_scale_is_exact_witness :
  enabled ManualGradScaler_default = true
  /\ scale ManualGradScaler_default = pow2 (-7)
  /\ dtype (fresh sample_grad) = kFloat32
  /\ Forall (scales_exactly (-7)) (data (fresh sample_grad))
  /\ unscaleGradients ManualGradScaler_default
       (Some (storage (scaleGradients ManualGradScaler_default
                                      (fresh sample_grad))))
     = Some (Some sample_grad).
Proof.
  split; [reflexivity | split; [reflexivity | split; [reflexivity |]]].
  split; [exact sample_grad_scales_exactly |].
  exact (unscale_after_scale_is_exact ManualGradScaler_default
           (fresh sample_grad) (-7) eq_refl eq_refl eq_refl
           sample_grad_scales_exactly).
Defined.

Lemma length_div_elements (g : Storage) (x : spec_float) :
  length (data (div_elements g x)) = length (data g).
Proof. unfold div_elements. simpl. apply length_map. Qed.

(** X11: what [unscaleGradients] does to a gradient slot. An undefined
    gradient stays undefined. With scaling enabled, a gradient of an
    integer element type makes the in-place division raise. In every other
    case the call returns and the gradient keeps its shape, element type,
    device and number of elements; with scaling disabled it is returned as
    it came. *)
Theorem unscaleGradients_keeps_shape
        (s : ManualGradScaler) (g : option Storage) :
  match g with
  | None => unscaleGradients s None = Some None
  | Some g0 =>
      if enabled s && negb (is_floating (dtype g0))
      then unscaleGradients s (Some g0) = None
      else exists g1,
          unscaleGradients s (Some g0) = Some (Some g1)
          /\ sizes g1 = sizes g0 /\ dtype g1 = dtype g0
          /\ device g1 = device g0
          /\ length (data g1) = length (data g0)
          /\ (enabled s = false -> g1 = g0)
  end.
Proof.
  destruct g as [g0 |]; [| reflexivity].
  unfold unscaleGradients, div_scalar_.
  destruct (enabled s); cbn [negb andb].
  - destruct (is_floating (dtype g0)); cbn [negb]; [| reflexivity].
    exists (div_elements g0 (scale s)).
    repeat split; try discriminate. apply length_div_elements.
  - exists g0. repeat split.
Qed.

Lemma div_by_zero_nonfinite (d : ScalarType) (x : spec_float) (sgn : bool) :
  nonfinite (scalar_op F32.div F64.div d x (S754_zero sgn)).
Proof.
  unfold nonfinite.
  destruct d, x as [sx | sx | | sx m e]; simpl; auto.
Qed.

(** X12: once the scale is a zero, [unscaleGradients] with scaling
    enabled turns every element of a gradient of a floating element type
    into an infinity or a NaN (division by zero); a non-empty gradient
    then makes the scan of [step] report an overflow. *)
Theorem unscale_by_zero_scale (s : ManualGradScaler) (g : Storage)
        (sgn : bool) :
  enabled s = true ->
  scale s = S754_zero sgn ->
  is_floating (dtype g) = true ->
  exists g',
    unscaleGradients s (Some g) = Some (Some g')
    /\ Forall nonfinite (data g')
    /\ (data g <> [] -> any_isinf g' || any_isnan g' = true).
Proof.
  intros Hen Hs Hfl. unfold unscaleGradients, div_scalar_.
  rewrite Hen, Hfl. cbn [negb].
  eexists. split; [reflexivity |].
  assert (Hall : Forall nonfinite (data (div_elements g (scale s)))).
  { unfold div_elements. cbn [data]. rewrite Hs.
    apply Forall_forall. intros y Hy. apply in_map_iff in Hy.
    destruct Hy as (x & <- & _). apply div_by_zero_nonfinite. }
  split; [exact Hall |].
  intros Hne. apply any_nonfinite_iff.
  pose proof (length_div_elements g (scale s)) as Hlen.
  destruct (data (div_elements g (scale s))) as [| y rest] eqn:Hdata.
  - destruct (data g); [congruence | discriminate].
  - inversion Hall; subst. now apply Exists_cons_hd.
Qed.

Lemma unscale_by_zero_scale_witness :
  enabled (at_level 166 0) = true
  /\ scale (at_level 166 0) = S754_zero false
  /\ is_floating (dtype sample_grad) = true
  /\ exists g',
      unscaleGradients (at_level 166 0) (Some sample_grad) = Some (Some g')
      /\ Forall nonfinite (data g')
      /\ (data sample_grad <> [] -> any_isinf g' || any_isnan g' = true).
Proof.
  split; [reflexivity | split; [reflexivity | split; [reflexivity |]]].
  exact (unscale_by_zero_scale (at_level 166 0) sample_grad false
           eq_refl eq_refl eq_refl).
Defined.

(* ------------------------------------------------------------------ *)
(** ** More on the constructor: what the attributes hold *)

Lemma firstn_length_app {A : Type} (l1 l2 : list A) :
  firstn (length l1) (l1 ++ l2) = l1.
Proof.
  induction l1 as [| x l1 IH]; simpl; [reflexivity | now rewrite IH].
Qed.

Lemma skipn_length_app {A : Type} (l1 l2 : list A) :
  skipn (length l1) (l1 ++ l2) = l2.
Proof.
  induction l1 as [| x l1 IH]; simpl; [reflexivity | exact IH].
Qed.

Lemma firstn_app_exact {A : Type} (n : nat) (l1 l2 : list A) :
  length l1 = n -> firstn n (l1 ++ l2) = l1.
Proof. intros <-. apply firstn_length_app. Qed.

Lemma skipn_app_exact {A : Type} (n : nat) (l1 l2 : list A) :
  length l1 = n -> skipn n (l1 ++ l2) = l2.
Proof. intros <-. apply skipn_length_app. Qed.

Lemma skipn_repeat {A : Type} (x : A) (a b : nat) :
  skipn a (repeat x b) = repeat x (b - a).
Proof.
  revert b. induction a as [| a IH]; intros b; simpl.
  - now rewrite Nat.sub_0_r.
  - destruct b as [| b]; simpl; [reflexivity | apply IH].
Qed.

(** Cutting a concatenation of [k]-long pieces into [k]-long rows gives
    the pieces back. *)
Lemma chunks_flat_map {A B : Type} (k : nat) (f : A -> list B) (l : list A) :
  Forall (fun x => length (f x) = k) l ->
  chunks k (length l) (flat_map f l) = map f l.
Proof.
  induction 1 as [| x l Hx _ IH]; simpl; [reflexivity |].
  rewrite <- Hx at 1 3.
  rewrite firstn_length_app, skipn_length_app.
  now rewrite IH.
Qed.

Lemma flat_map_const_repeat {A B : Type} (y : B) (r : nat) (l : list A) :
  flat_map (fun _ => repeat y r) l = repeat y (length l * r).
Proof.
  induction l as [| x l IH]; simpl; [reflexivity |].
  now rewrite IH, repeat_app.
Qed.

Lemma repeat_as_flat_map {A : Type} (x : A) (n k : nat) :
  repeat x (n * k) = flat_map (fun _ : unit => repeat x k) (repeat tt n).
Proof.
  rewrite flat_map_const_repeat, repeat_length. reflexivity.
Qed.

Lemma chunks_repeat {A : Type} (x : A) (k n : nat) :
  chunks k n (repeat x (n * k)) = repeat (repeat x k) n.
Proof.
  rewrite repeat_as_flat_map.
  rewrite <- (repeat_length tt n) at 1.
  rewrite chunks_flat_map.
  - apply map_repeat.
  - apply Forall_forall. intros ? _. apply repeat_length.
Qed.

Lemma chunks_rows {A : Type} (k n : nat) (l : list A) :
  length l = (n * k)%nat ->
  length (chunks k n l) = n
  /\ Forall (fun row => length row = k) (chunks k n l)
  /\ concat (chunks k n l) = l.
Proof.
  revert l. induction n as [| n IH]; intros l Hlen; simpl in *.
  - repeat split; [constructor |].
    destruct l; [reflexivity | discriminate].
  - destruct (IH (skipn k l)) as (H1 & H2 & H3).
    { rewrite length_skipn. lia. }
    repeat split.
    + now rewrite H1.
    + constructor; [| exact H2]. rewrite length_firstn. lia.
    + rewrite H3. apply firstn_skipn.
Qed.

Lemma to_nat_mul (a b : Z) :
  0 <= b -> Z.to_nat (a * b) = (Z.to_nat a * Z.to_nat b)%nat.
Proof.
  intros Hb. destruct (Z_le_dec 0 a) as [Ha | Ha].
  - now apply Z2Nat.inj_mul.
  - replace (Z.to_nat a) with 0%nat by lia.
    replace (Z.to_nat (a * b)) with 0%nat by nia. reflexivity.
Qed.

Lemma flat_map_map {A B D : Type} (g : A -> B) (f : B -> list D)
      (l : list A) :
  flat_map f (map g l) = flat_map (fun x => f (g x)) l.
Proof.
  induction l as [| x l IH]; simpl; [reflexivity | now rewrite IH].
Qed.

Lemma flat_map_ext_Forall {A B : Type} (f g : A -> list B) (l : list A) :
  Forall (fun x => f x = g x) l -> flat_map f l = flat_map g l.
Proof.
  induction 1 as [| x l Hx _ IH]; simpl; [reflexivity | now rewrite Hx, IH].
Qed.

Lemma flat_map_map_concat {A B : Type} (f : A -> B) (rows : list (list A)) :
  flat_map (map f) rows = map f (concat rows).
Proof.
  induction rows as [| row rows IH]; simpl; [reflexivity |].
  now rewrite IH, map_app.
Qed.

Lemma combine_repeat {A B : Type} (c : B) (rows : list A) :
  combine rows (repeat c (length rows)) = map (fun row => (row, c)) rows.
Proof.
  induction rows as [| row rows IH]; simpl; [reflexivity | now rewrite IH].
Qed.

Lemma length_flat_map_repeat {A : Type} (n : nat) (row : list A) :
  length (flat_map (fun x => repeat x n) row) = (length row * n)%nat.
Proof.
  induction row as [| x row IH]; simpl; [reflexivity |].
  now rewrite length_app, repeat_length, IH.
Qed.

(** The rows that [copy_] broadcasts out of a well-formed source: one per
    point, three elements each. *)
Lemma expand_rows_shape (N : Z) (src : Storage)
      (rows : list (list spec_float)) :
  well_formed src ->
  expand_rows N 3 src = Some rows ->
  length rows = Z.to_nat N /\ Forall (fun row => length row = 3%nat) rows.
Proof.
  unfold well_formed, expand_rows. intros Hwf.
  assert (Hcore : forall r c : Z,
             length (data src) = (Z.to_nat r * Z.to_nat c)%nat ->
             (if negb ((c =? 3) || (c =? 1)) then None
              else if r =? N
                   then Some (map (fun row : list spec_float =>
                                     if c =? 3 then row
                                     else flat_map
                                            (fun x => repeat x (Z.to_nat 3))
                                            row)
                                  (chunks (Z.to_nat c) (Z.to_nat r)
                                          (data src)))
                   else if r =? 1
                        then Some (concat
                                     (repeat
                                        (map (fun row : list spec_float =>
                                                if c =? 3 then row
                                                else flat_map
                                                       (fun x =>
                                                          repeat x
                                                            (Z.to_nat 3))
                                                       row)
                                             (chunks (Z.to_nat c)
                                                     (Z.to_nat r)
                                                     (data src)))
                                        (Z.to_nat N)))
                        else None) = Some rows ->
             length rows = Z.to_nat N
             /\ Forall (fun row => length row = 3%nat) rows).
  { intros r c Hlen.
    destruct (chunks_rows (Z.to_nat c) (Z.to_nat r) (data src) Hlen)
      as (Hn & Hrows & _).
    set (base := chunks (Z.to_nat c) (Z.to_nat r) (data src)) in *.
    set (widen := fun row : list spec_float =>
                    if c =? 3 then row
                    else flat_map (fun x => repeat x (Z.to_nat 3)) row).
    destruct ((c =? 3) || (c =? 1)) eqn:Hc; cbn [negb]; [| discriminate].
    assert (Hw : Forall (fun row => length row = 3%nat) (map widen base)).
    { apply Forall_forall. intros row Hin. apply in_map_iff in Hin.
      destruct Hin as (row0 & <- & Hin0).
      rewrite Forall_forall in Hrows. specialize (Hrows row0 Hin0).
      unfold widen. destruct (c =? 3) eqn:Hc3.
      - apply Z.eqb_eq in Hc3. subst c. exact Hrows.
      - simpl in Hc. apply Z.eqb_eq in Hc. subst c.
        rewrite length_flat_map_repeat, Hrows. reflexivity. }
    destruct (r =? N) eqn:HrN.
    - apply Z.eqb_eq in HrN. subst r. intros H. injection H as <-.
      split; [now rewrite length_map | exact Hw].
    - destruct (r =? 1) eqn:Hr1; [| discriminate].
      apply Z.eqb_eq in Hr1. subst r. intros H. injection H as <-.
      split.
      + change (Z.to_nat 1) with 1%nat in Hn.
        clear - Hn. induction (Z.to_nat N) as [| n IH];
          cbn [repeat concat]; [reflexivity |].
        rewrite length_app, IH. reflexivity.
      + clear - Hw. induction (Z.to_nat N) as [| n IH];
          cbn [repeat concat]; [constructor |].
        apply Forall_app. split; assumption. }
  destruct (sizes src) as [| x [| y [| z rest]]] eqn:Hs.
  - apply (Hcore 1 1). rewrite Hwf. reflexivity.
  - apply (Hcore 1 x). rewrite Hwf. simpl numel.
    rewrite Z.mul_1_r. change (Z.to_nat 1) with 1%nat. lia.
  - intros H. apply (Hcore x y); [| exact H].
    rewrite Hwf. simpl numel. rewrite Z.mul_1_r.
    destruct ((y =? 3) || (y =? 1)) eqn:Hy; [| discriminate].
    apply to_nat_mul.
    apply orb_true_iff in Hy. destruct Hy as [Hy | Hy];
      apply Z.eqb_eq in Hy; lia.
  - simpl. discriminate.
Qed.

Lemma assign_dc_data (N B : Z) (shs src shs' : Tensor)
      (rows : list (list spec_float)) :
  assign_dc N B shs src = Some shs' ->
  expand_rows N 3 src = Some rows ->
  data shs'
  = flat_map (fun p : list spec_float * list spec_float =>
                map (round_to (dtype shs)) (fst p) ++ skipn 3 (snd p))
             (combine rows
                (chunks (Z.to_nat (B * 3)) (Z.to_nat N) (data shs))).
Proof.
  unfold assign_dc. intros H Hexp. rewrite Hexp in H.
  injection H as <-. reflexivity.
Qed.

(** Filling the columns from the fourth on of bases that have three:
    nothing changes. *)
Lemma fill_zero_bases (b : nat) :
  flat_map (fun bs : list spec_float =>
              firstn 3 bs
              ++ map (fun _ => round_to kFloat32 F32.zero) (skipn 3 bs))
           (repeat (repeat F32.zero 3) b)
  = repeat F32.zero (b * 3).
Proof.
  induction b as [| b IH]; [reflexivity |].
  change (repeat (repeat F32.zero 3) (S b))
    with (repeat F32.zero 3 :: repeat (repeat F32.zero 3) b).
  cbn [flat_map]. rewrite IH. reflexivity.
Qed.

Section ShsRows.
Variables (N B : Z) (rows : list (list spec_float)).
Hypothesis HB : 1 <= B.
Hypothesis Hlen : length rows = Z.to_nat N.
Hypothesis Hrows : Forall (fun row => length row = 3%nat) rows.

Lemma newrow_length :
  Forall (fun row => length (shs_row B row) = Z.to_nat (B * 3)) rows.
Proof.
  apply Forall_forall. intros row Hin.
  rewrite Forall_forall in Hrows. specialize (Hrows row Hin).
  unfold shs_row. rewrite length_app, length_map, repeat_length, Hrows. lia.
Qed.

Lemma chunks_newrows :
  chunks (Z.to_nat (B * 3)) (Z.to_nat N) (flat_map (shs_row B) rows)
  = map (shs_row B) rows.
Proof.
  rewrite <- Hlen. apply chunks_flat_map. exact newrow_length.
Qed.

Lemma assign_dc_rows (dev : Device) (src shs : Tensor) :
  expand_rows N 3 src = Some rows ->
  assign_dc N B (zeros [N; B; 3] kFloat32 dev) src = Some shs ->
  data shs = flat_map (shs_row B) rows.
Proof.
  intros Hexp Hassign.
  rewrite (assign_dc_data N B _ src shs rows Hassign Hexp).
  change (data (zeros [N; B; 3] kFloat32 dev))
    with (repeat F32.zero (Z.to_nat (N * (B * (3 * 1))))).
  change (dtype (zeros [N; B; 3] kFloat32 dev)) with kFloat32.
  replace (Z.to_nat (N * (B * (3 * 1))))
    with (Z.to_nat N * Z.to_nat (B * 3))%nat.
  2:{ replace (B * (3 * 1)) with (B * 3) by lia.
      symmetry. apply to_nat_mul. lia. }
  rewrite chunks_repeat, <- Hlen, combine_repeat, flat_map_map.
  apply flat_map_ext_Forall. apply Forall_forall. intros row _.
  cbn [fst snd]. unfold shs_row. f_equal.
  rewrite skipn_repeat. f_equal. lia.
Qed.

Lemma fill_rest_from_rows (shs : Tensor) :
  dtype shs = kFloat32 ->
  data shs = flat_map (shs_row B) rows ->
  data (fill_rest_from N B 3 shs F32.zero) = flat_map (shs_row B) rows.
Proof.
  intros Hd Hdata. unfold fill_rest_from. cbn [storage data].
  rewrite Hdata, chunks_newrows, flat_map_map.
  apply flat_map_ext_Forall.
  rewrite Forall_forall in Hrows |- *. intros row Hin.
  specialize (Hrows row Hin).
  unfold shs_row at 1 2.
  rewrite <- (length_map (round_to kFloat32) row) in Hrows.
  rewrite (firstn_app_exact 3 _ _ Hrows), (skipn_app_exact 3 _ _ Hrows).
  unfold shs_row. f_equal.
  rewrite chunks_repeat, Hd. apply fill_zero_bases.
Qed.

Lemma slice_rest_rows (shs : Tensor) :
  data shs = flat_map (shs_row B) rows ->
  data (slice_rest N B shs)
  = repeat F32.zero (Z.to_nat N * (Z.to_nat (B - 1) * 3)).
Proof.
  intros Hdata. unfold slice_rest. cbn [storage data fresh].
  rewrite Hdata, chunks_newrows, flat_map_map.
  rewrite <- Hlen, <- flat_map_const_repeat.
  apply flat_map_ext_Forall.
  rewrite Forall_forall in Hrows |- *. intros row Hin.
  specialize (Hrows row Hin). unfold shs_row.
  rewrite <- (length_map (round_to kFloat32) row) in Hrows.
  now apply skipn_app_exact.
Qed.

Lemma select_dc_rows (shs : Tensor) :
  data shs = flat_map (shs_row B) rows ->
  data (select_dc N B shs) = map (round_to kFloat32) (concat rows).
Proof.
  intros Hdata. unfold select_dc. cbn [storage data fresh].
  rewrite Hdata, chunks_newrows, flat_map_map.
  rewrite <- flat_map_map_concat.
  apply flat_map_ext_Forall.
  rewrite Forall_forall in Hrows |- *. intros row Hin.
  specialize (Hrows row Hin). unfold shs_row.
  rewrite <- (length_map (round_to kFloat32) row) in Hrows.
  now apply firstn_app_exact.
Qed.

End ShsRows.

Section ModelParts.
Context {C : Collaborators}.
Variables (inputData : InputData.t) (a : Args.t).

Lemma Model_new_parts (g0 : Generator) (m : ModelT) (g' : Generator) :
  Model_new inputData a g0 = Some (m, g') ->
  exists numPoints rep shs0,
    let device := Args.device a in
    let xyz := Points.xyz (InputData.points inputData) in
    let dimSh := numShBases (Args.shDegree a) in
    let shs := fill_rest_from numPoints dimSh 3 shs0 F32.zero in
    let lowp := Args.mixedPrecision a && (Args.fp16Level a >=? 2)
                && Device_neb device (Device_of kCPU) in
    let rest32 :=
      requires_grad_ (to_device (slice_rest numPoints dimSh shs) device) in
    size0 xyz = Some numPoints
    /\ 1 <= dimSh
    /\ repeat_1_3 (neighbour_scales inputData) = Some rep
    /\ assign_dc numPoints dimSh (zeros [numPoints; dimSh; 3] kFloat32 device)
                 (colour_source inputData) = Some shs0
    /\ Model.means m = requires_grad_ (to_device xyz device)
    /\ Model.scales m
       = requires_grad_
           (to_device (pointwise (log_kernel (dtype rep)) rep) device)
    /\ requires_grad (Model.quats m) = true
    /\ Model.featuresDc m
       = requires_grad_ (to_device (select_dc numPoints dimSh shs) device)
    /\ Model.featuresRest m
       = (if lowp then requires_grad_ (toType rest32 kFloat16) else rest32)
    /\ requires_grad (Model.opacities m) = true
    /\ requires_grad (Model.backgroundColor m) = true
    /\ Model.gradScaler m
       = set_enabled ManualGradScaler_default
           (Args.mixedPrecision a && Device_neb device (Device_of kCPU)).
Proof.
  unfold Model_new, neighbour_scales, colour_source.
  destruct (size0 (Points.xyz (InputData.points inputData)))
    as [numPoints |] eqn:Hsize; [| discriminate].
  destruct (PointsTensor_scales (Points.xyz (InputData.points inputData))
                                (manual_seed 42)) as [knn g2] eqn:Hknn.
  destruct (repeat_1_3 knn) as [rep |] eqn:Hrep; [| discriminate].
  destruct (randomQuatTensor numPoints g2) as [q g3] eqn:Hq.
  destruct (numShBases (Args.shDegree a) <? 1) eqn:Hsh; [discriminate |].
  apply Z.ltb_ge in Hsh.
  destruct (assign_dc _ _ _ _) as [shs0 |] eqn:Hshs; [| discriminate].
  intros H. injection H as <- <-.
  exists numPoints, rep, shs0. cbv zeta. cbn [fst snd].
  destruct (Args.mixedPrecision a && (Args.fp16Level a >=? 2)
            && Device_neb (Args.device a) (Device_of kCPU));
    simpl; repeat split; assumption || reflexivity.
Qed.

End ModelParts.

Lemma chunks_singletons {A : Type} (l : list A) :
  chunks 1 (length l) l = map (fun x => [x]) l.
Proof.
  induction l as [| x l IH]; simpl; [reflexivity | now rewrite IH].
Qed.

Lemma run_disabled (calls : list (list Tensor)) (s : ManualGradScaler) :
  enabled s = false -> run s calls = s.
Proof.
  intros Hen. induction calls as [| params rest IH]; simpl;
    [reflexivity |].
  unfold step. rewrite Hen. simpl. exact IH.
Qed.

Lemma round_half_zeros (n : nat) :
  map (round_to kFloat16) (repeat F32.zero n) = repeat F32.zero n.
Proof. apply map_repeat. Qed.

Section ModelContents.
Context {C : Collaborators}.
Variables (inputData : InputData.t) (a : Args.t).
Variables (g0 : Generator) (m : ModelT) (g' : Generator).
Variables (N : Z) (dims : list Z).

(** X13: the attributes whose shape the constructor decides itself share
    the number of points of the input: [means] has the shape of the input
    points, [featuresDc] is N x 3 and [featuresRest] is N x (B - 1) x 3 for
    B spherical-harmonics bases, in either precision; and all six
    attributes and the background colour require gradients. *)
Theorem attributes_share_point_count :
  Model_new inputData a g0 = Some (m, g') ->
  sizes (Points.xyz (InputData.points inputData)) = N :: dims ->
  sizes (Model.means m) = N :: dims
  /\ sizes (Model.featuresDc m) = [N; 3]
  /\ sizes (Model.featuresRest m)
     = [N; numShBases (Args.shDegree a) - 1; 3]
  /\ requires_grad (Model.means m) = true
  /\ requires_grad (Model.scales m) = true
  /\ requires_grad (Model.quats m) = true
  /\ requires_grad (Model.featuresDc m) = true
  /\ requires_grad (Model.featuresRest m) = true
  /\ requires_grad (Model.opacities m) = true
  /\ requires_grad (Model.backgroundColor m) = true.
Proof.
  intros Hnew Hxyz.
  destruct (Model_new_parts inputData a g0 m g' Hnew)
    as (numPoints & rep & shs0 & H).
  cbv zeta in H.
  destruct H as (Hsize & HB & Hrep & Hassign & Hmeans & Hscales & Hquats
                 & Hdc & Hrest & Hop & Hbg & Hgs).
  unfold size0 in Hsize. rewrite Hxyz in Hsize. injection Hsize as <-.
  rewrite Hmeans, Hscales, Hdc, Hrest.
  repeat split; try assumption; try reflexivity.
  - cbn [storage requires_grad_].
    rewrite (proj1 (proj2 (to_device_keeps _ _))). exact Hxyz.
  - cbn [storage requires_grad_].
    rewrite (proj1 (proj2 (to_device_keeps _ _))). reflexivity.
  - destruct (Args.mixedPrecision a && (Args.fp16Level a >=? 2)
              && Device_neb (Args.device a) (Device_of kCPU)).
    + cbn [storage requires_grad_]. unfold toType.
      destruct (ScalarType_eqb _ _); cbn [storage sizes requires_grad_];
        rewrite (proj1 (proj2 (to_device_keeps _ _))); reflexivity.
    + cbn [storage requires_grad_].
      rewrite (proj1 (proj2 (to_device_keeps _ _))). reflexivity.
  - destruct (Args.mixedPrecision a && (Args.fp16Level a >=? 2)
              && Device_neb (Args.device a) (Device_of kCPU)); reflexivity.
Qed.

(** X14: with well-formed colours, every element of [featuresRest] is +0
    when the constructor returns, N * (B - 1) * 3 of them: only the first
    basis receives the colours, and the conversion to half precision, where
    it applies, changes nothing yet. *)
Theorem featuresRest_starts_at_zero :
  Model_new inputData a g0 = Some (m, g') ->
  sizes (Points.xyz (InputData.points inputData)) = N :: dims ->
  well_formed (colour_source inputData) ->
  data (Model.featuresRest m)
  = repeat F32.zero
           (Z.to_nat N * (Z.to_nat (numShBases (Args.shDegree a) - 1) * 3)).
Proof.
  intros Hnew Hxyz Hwf.
  destruct (Model_new_parts inputData a g0 m g' Hnew)
    as (numPoints & rep & shs0 & H).
  cbv zeta in H.
  destruct H as (Hsize & HB & Hrep & Hassign & Hmeans & Hscales & Hquats
                 & Hdc & Hrest & Hop & Hbg & Hgs).
  unfold size0 in Hsize. rewrite Hxyz in Hsize. injection Hsize as <-.
  destruct (expand_rows N 3 (colour_source inputData)) as [rows |] eqn:Hexp.
  2:{ unfold assign_dc in Hassign. rewrite Hexp in Hassign. discriminate. }
  destruct (expand_rows_shape N _ rows Hwf Hexp) as [Hlen Hrows].
  pose proof (assign_dc_rows N (numShBases (Args.shDegree a)) rows HB Hlen
                (Args.device a) _ shs0 Hexp Hassign) as Hdata.
  pose proof (assign_dc_dtype _ _ _ _ _ Hassign) as Hdt.
  change (dtype (zeros _ kFloat32 _)) with kFloat32 in Hdt.
  pose proof (fill_rest_from_rows N _ rows HB Hlen Hrows shs0 Hdt Hdata)
    as Hfill.
  pose proof (slice_rest_rows N _ rows HB Hlen Hrows _ Hfill) as Hslice.
  rewrite Hrest.
  destruct (Args.mixedPrecision a && (Args.fp16Level a >=? 2)
            && Device_neb (Args.device a) (Device_of kCPU)).
  - cbn [storage requires_grad_]. unfold toType.
    destruct (ScalarType_eqb _ _); cbn [storage data requires_grad_];
      rewrite (proj2 (proj2 (to_device_keeps _ _))), Hslice;
      [reflexivity | apply round_half_zeros].
  - cbn [storage requires_grad_].
    rewrite (proj2 (proj2 (to_device_keeps _ _))). exact Hslice.
Qed.

(** X15: with well-formed colours of shape N x 3, [featuresDc] holds
    exactly them, point by point, converted to single precision: the
    first basis of every point is its colour as [rgb2sh] returned it. *)
Theorem featuresDc_holds_colours :
  Model_new inputData a g0 = Some (m, g') ->
  sizes (Points.xyz (InputData.points inputData)) = N :: dims ->
  well_formed (colour_source inputData) ->
  sizes (colour_source inputData) = [N; 3] ->
  data (Model.featuresDc m)
  = map (round_to kFloat32) (data (colour_source inputData)).
Proof.
  intros Hnew Hxyz Hwf Hsz.
  destruct (Model_new_parts inputData a g0 m g' Hnew)
    as (numPoints & rep & shs0 & H).
  cbv zeta in H.
  destruct H as (Hsize & HB & Hrep & Hassign & Hmeans & Hscales & Hquats
                 & Hdc & Hrest & Hop & Hbg & Hgs).
  unfold size0 in Hsize. rewrite Hxyz in Hsize. injection Hsize as <-.
  assert (Hlen3 : length (data (colour_source inputData))
                  = (Z.to_nat N * Z.to_nat 3)%nat).
  { rewrite Hwf, Hsz. change (numel [N; 3]) with (N * (3 * 1)).
    change (3 * 1) with 3. apply to_nat_mul. lia. }
  destruct (chunks_rows _ _ _ Hlen3) as (Hn & Hrows3 & Hconcat).
  set (rows := chunks (Z.to_nat 3) (Z.to_nat N)
                      (data (colour_source inputData))) in *.
  assert (Hexp : expand_rows N 3 (colour_source inputData) = Some rows).
  { unfold expand_rows. rewrite Hsz. cbn [negb orb].
    rewrite !Z.eqb_refl. cbn [negb orb]. fold rows.
    now rewrite map_id. }
  pose proof (assign_dc_rows N (numShBases (Args.shDegree a)) rows HB Hn
                (Args.device a) _ shs0 Hexp Hassign) as Hdata.
  pose proof (assign_dc_dtype _ _ _ _ _ Hassign) as Hdt.
  change (dtype (zeros _ kFloat32 _)) with kFloat32 in Hdt.
  pose proof (fill_rest_from_rows N _ rows HB Hn Hrows3 shs0 Hdt Hdata)
    as Hfill.
  pose proof (select_dc_rows N _ rows HB Hn Hrows3 _ Hfill) as Hsel.
  rewrite Hdc. cbn [storage requires_grad_].
  rewrite (proj2 (proj2 (to_device_keeps _ _))), Hsel, Hconcat.
  reflexivity.
Qed.

(** X16: with well-formed neighbour scales of shape N x 1, [scales] is
    N x 3 and every point has the same value on its three axes, the
    logarithm of its neighbour scale: the initial splats are isotropic. *)
Theorem scales_start_isotropic :
  Model_new inputData a g0 = Some (m, g') ->
  well_formed (neighbour_scales inputData) ->
  sizes (neighbour_scales inputData) = [N; 1] ->
  sizes (Model.scales m) = [N; 3]
  /\ data (Model.scales m)
     = flat_map (fun x =>
                   let y := log_kernel (dtype (neighbour_scales inputData)) x
                   in [y; y; y])
                (data (neighbour_scales inputData)).
Proof.
  intros Hnew Hwf Hsz.
  destruct (Model_new_parts inputData a g0 m g' Hnew)
    as (numPoints & rep & shs0 & H).
  cbv zeta in H.
  destruct H as (Hsize & HB & Hrep & Hassign & Hmeans & Hscales & Hquats
                 & Hdc & Hrest & Hop & Hbg & Hgs).
  assert (Hlen : length (data (neighbour_scales inputData)) = Z.to_nat N).
  { rewrite Hwf, Hsz. change (numel [N; 1]) with (N * (1 * 1)).
    f_equal. lia. }
  unfold repeat_1_3 in Hrep. rewrite Hsz in Hrep.
  injection Hrep as <-.
  rewrite Hscales. cbn [storage requires_grad_].
  rewrite (proj1 (proj2 (to_device_keeps _ _))).
  rewrite (proj2 (proj2 (to_device_keeps _ _))).
  split; [reflexivity |].
  cbn [pointwise storage data].
  rewrite <- Hlen. change (Z.to_nat 1) with 1%nat.
  rewrite chunks_singletons, flat_map_map.
  cbn [dtype].
  generalize (log_kernel (dtype (neighbour_scales inputData))).
  generalize (data (neighbour_scales inputData)). intros l f.
  induction l as [| x l IH]; [reflexivity |].
  cbn [flat_map map app]. cbn [flat_map map app] in IH.
  now rewrite IH.
Qed.

(** X17: the controller of a constructed model keeps its scale within
    0 <= scale <= 65536 over every sequence of [step] calls; when mixed
    precision was not requested or the device is [torch::kCPU], no call
    changes it at all and the scale stays 65536. *)
Theorem model_controller_over_run (calls : list (list Tensor)) :
  Model_new inputData a g0 = Some (m, g') ->
  SFleb F32.zero (scale (run (Model.gradScaler m) calls)) = true
  /\ SFleb (scale (run (Model.gradScaler m) calls)) f65536 = true
  /\ (Args.mixedPrecision a = false \/ Args.device a = Device_of kCPU ->
      run (Model.gradScaler m) calls = Model.gradScaler m
      /\ scale (run (Model.gradScaler m) calls) = f65536).
Proof.
  intros Hnew.
  destruct (Model_new_parts inputData a g0 m g' Hnew)
    as (numPoints & rep & shs0 & H).
  cbv zeta in H.
  destruct H as (_ & _ & _ & _ & _ & _ & _ & _ & _ & _ & _ & Hgs).
  rewrite Hgs.
  destruct (Args.mixedPrecision a && Device_neb (Args.device a)
                                                (Device_of kCPU)) eqn:Hen.
  - change (set_enabled ManualGradScaler_default true) with (at_level 0 0).
    destruct (run_at_level calls 0 0) as (k & u & Hrun & Hk & _ & _);
      [lia | lia |].
    rewrite Hrun. cbn [scale at_level].
    destruct (level_range k Hk) as [Hlo Hhi].
    repeat split; try assumption.
    + apply andb_true_iff in Hen. destruct Hen as [Hmp Hdev].
      destruct H as [H | H]; [congruence |].
      rewrite H in Hdev. discriminate.
    + apply andb_true_iff in Hen. destruct Hen as [Hmp Hdev].
      destruct H as [H | H]; [congruence |].
      rewrite H in Hdev. discriminate.
  - rewrite run_disabled by reflexivity.
    repeat split; reflexivity.
Qed.

End ModelContents.

(* ------------------------------------------------------------------ *)
(** ** The contents of the model built from the sample input *)

Lemma sample_colours_well_formed :
  well_formed (colour_source (C := sample_collaborators) sample_input).
Proof. reflexivity. Defined.

Lemma sample_scales_well_formed :
  well_formed (neighbour_scales (C := sample_collaborators) sample_input).
Proof. reflexivity. Defined.

Lemma fp16_dtype_of_sample_run :
  option_map (fun r => dtype (Model.featuresRest (fst r))) (sample_run cuda)
  = Some kFloat16.
Proof. vm_compute. reflexivity. Qed.

Lemma attributes_share_point_count_witness :
  sizes (Points.xyz (InputData.points sample_input)) = [2; 3]
  /\ exists m g',
      sample_run cuda = Some (m, g')
      /\ sizes (Model.featuresDc m) = [2; 3]
      /\ sizes (Model.featuresRest m) = [2; 15; 3].
Proof.
  split; [reflexivity |].
  destruct (sample_run cuda) as [[m g'] |] eqn:Hrun.
  - exists m, g'. split; [reflexivity |].
    pose proof (attributes_share_point_count (C := sample_collaborators)
                  sample_input (sample_args cuda) 0 m g' 2 [3] Hrun eq_refl)
      as (_ & Hdc & Hrest & _).
    split; [exact Hdc | exact Hrest].
  - exfalso. exact (sample_run_returns cuda Hrun).
Defined.

Lemma featuresRest_starts_at_zero_witness :
  well_formed (colour_source (C := sample_collaborators) sample_input)
  /\ exists m g',
      sample_run cuda = Some (m, g')
      /\ dtype (Model.featuresRest m) = kFloat16
      /\ data (Model.featuresRest m) = repeat F32.zero 90.
Proof.
  split; [exact sample_colours_well_formed |].
  destruct (sample_run cuda) as [[m g'] |] eqn:Hrun.
  - exists m, g'. split; [reflexivity |]. split.
    + pose proof fp16_dtype_of_sample_run as Hd.
      unfold sample_run in Hrun, Hd. rewrite Hrun in Hd.
      injection Hd as Hd. exact Hd.
    + exact (featuresRest_starts_at_zero (C := sample_collaborators)
               sample_input (sample_args cuda) 0 m g' 2 [3] Hrun eq_refl
               sample_colours_well_formed).
  - exfalso. exact (sample_run_returns cuda Hrun).
Defined.

Lemma featuresDc_holds_colours_witness :
  well_formed (colour_source (C := sample_collaborators) sample_input)
  /\ sizes (colour_source (C := sample_collaborators) sample_input) = [2; 3]
  /\ exists m g',
      sample_run cuda = Some (m, g')
      /\ data (Model.featuresDc m)
         = map (round_to kFloat32)
               (data (colour_source (C := sample_collaborators)
                                    sample_input)).
Proof.
  split; [exact sample_colours_well_formed | split; [reflexivity |]].
  destruct (sample_run cuda) as [[m g'] |] eqn:Hrun.
  - exists m, g'. split; [reflexivity |].
    exact (featuresDc_holds_colours (C := sample_collaborators)
             sample_input (sample_args cuda) 0 m g' 2 [3] Hrun eq_refl
             sample_colours_well_formed eq_refl).
  - exfalso. exact (sample_run_returns cuda Hrun).
Defined.

Lemma scales_start_isotropic_witness :
  well_formed (neighbour_scales (C := sample_collaborators) sample_input)
  /\ sizes (neighbour_scales (C := sample_collaborators) sample_input)
     = [2; 1]
  /\ exists m g',
      sample_run cuda = Some (m, g')
      /\ sizes (Model.scales m) = [2; 3]
      /\ data (Model.scales m) = repeat F32.one 6.
Proof.
  split; [exact sample_scales_well_formed | split; [reflexivity |]].
  destruct (sample_run cuda) as [[m g'] |] eqn:Hrun.
  - exists m, g'. split; [reflexivity |].
    exact (scales_start_isotropic (C := sample_collaborators)
             sample_input (sample_args cuda) 0 m g' 2 Hrun
             sample_scales_well_formed eq_refl).
  - exfalso. exact (sample_run_returns cuda Hrun).
Defined.

Lemma model_controller_over_run_witness :
  exists m g',
    sample_run cpu = Some (m, g')
    /\ scale (run (Model.gradScaler m) (repeat [nan_param] 166)) = f65536.
Proof.
  destruct (sample_run cpu) as [[m g'] |] eqn:Hrun.
  - exists m, g'. split; [reflexivity |].
    exact (proj2 (proj2 (proj2 (model_controller_over_run
                                  (C := sample_collaborators)
                                  sample_input (sample_args cpu) 0 m g'
                                  (repeat [nan_param] 166) Hrun))
                        (or_intror eq_refl))).
  - exfalso. exact (sample_run_returns cpu Hrun).
Defined.
